(** * A shallow embedding of the go_web_scaffolding service

    The repository is a small Go web-service scaffold:
    - [main.go]            the process supervisor (start-up, signal wait,
                           graceful shutdown);
    - [dao/mysql/mysql.go] the relational-store connector ([Init], [Close]);
    - package [logger]     the zap initialiser and the gin middlewares
                           ([Init], [getLogWriter], [getEncoder],
                           [GinLogger], [GinRecovery]).

    Go code is embedded as follows.
    - Package-level variables ([db], zap's global logger) live in a [World]
      record that is passed explicitly; everything the program does to the
      outside (calls into sqlx, zap, net/http, os/signal, fmt) is appended
      to the [out] trace of the world, oldest event first.
    - A Go function that can panic is a computation in the monad [M]:
      a state transformer whose result is a value or a panic.
    - Pointers that may be nil are [option]s; dereferencing [None] panics.
    - The [main] function is a transition system: one step per statement of
      [main.go], interleaved with the steps of the listener goroutine and
      with signal deliveries by the operating system.
    - Third-party and standard-library behaviour that the sources only call
      (sqlx.Connect, zapcore's level parser, settings.Init, redis.Init,
      srv.Shutdown, ...) is given by an [Extern] record, over which every
      theorem is universally quantified. *)

From Stdlib Require Import String Ascii List ZArith Bool Lia DecimalString.
Import ListNotations.
Open Scope string_scope.
Open Scope Z_scope.

Set Implicit Arguments.

(** ** Go values shared by the packages *)

(** Go [error] values on which the [Error] method returns, by dynamic
    type.  The two sentinels are compared by identity in the sources
    ([err != http.ErrServerClosed]); the structured ones are those
    [GinRecovery] inspects by type assertion.  A nil [*net.OpError] is such
    a value: its [Error] method tests the receiver and returns ["<nil>"].
    An [*os.SyscallError] or [*net.OpError] of this type is not nil and its
    [Err] field holds a value of this type; the error values on which
    [Error] panics are among the panic values below. *)
Inductive error : Type :=
| ErrServerClosed                                   (* http.ErrServerClosed *)
| DeadlineExceeded                                  (* context.DeadlineExceeded *)
| RuntimeError (text : string)                      (* runtime.Error *)
| ErrorString (text : string)                       (* any other error type *)
| SyscallError (Syscall : string) (Err : error)     (* *os.SyscallError *)
| OpError (Op Net : string) (Source Addr : option string) (Err : error)
                                                    (* *net.OpError *)
| NilOpError.                                       (* a nil *net.OpError *)

(** The [Error()] method of each dynamic type. *)
Fixpoint Error (e : error) : string :=
  match e with
  | ErrServerClosed => "http: Server closed"
  | DeadlineExceeded => "context deadline exceeded"
  | RuntimeError text => "runtime error: " ++ text
  | ErrorString text => text
  | SyscallError sc err => sc ++ ": " ++ Error err
  | OpError op net src addr err =>
      let s := op in
      let s := if String.eqb net EmptyString then s else s ++ " " ++ net in
      let s := match src with Some a => s ++ " " ++ a | None => s end in
      let s := match addr with
               | Some a => (match src with Some _ => s ++ "->" | None => s ++ " " end) ++ a
               | None => s
               end in
      s ++ ": " ++ Error err
  | NilOpError => "<nil>"
  end.

(** [err != http.ErrServerClosed]: comparison with the sentinel. *)
Definition is_ErrServerClosed (e : error) : bool :=
  match e with ErrServerClosed => true | _ => false end.

(** The value carried by a panic (Go's [any]); [recover()] returns it.
    With Go 1.21 and later a panic never carries nil.  An error value on
    which the [Error] method itself panics (a nil [*os.SyscallError], a
    structured error whose [Err] field is nil, ...) is one of the last two:
    what matters to the sources is whether it is a [*net.OpError] (not nil)
    whose [Err] is an [*os.SyscallError], nil or not. *)
Inductive PanicVal : Type :=
| PanicError (e : error)          (* an error value on which Error() returns *)
| PanicOther (repr : string)      (* a value that is no error, e.g. panic("text") *)
| PanicFaultyOpError (Op Net : string) (Source Addr : option string)
    (raised : PanicVal)
    (* &net.OpError{..., Err: se} where se is an *os.SyscallError and
       se.Error() panics with [raised] *)
| PanicFaulty (repr : string).    (* any other error value on which Error() panics *)

Definition nil_dereference : PanicVal :=
  PanicError (RuntimeError "invalid memory address or nil pointer dereference").

(** A Go function result: [error] that may be nil. *)
Definition err_result := option error.

(** Operating-system signals the process can be sent.  The job-control
    signals, the synchronous ones (SIGSEGV, ...) and SIGPIPE, SIGPROF are
    left out. *)
Inductive Signal : Type :=
| SIGHUP | SIGINT | SIGQUIT | SIGKILL | SIGTERM
| SIGUSR1 | SIGUSR2 | SIGCHLD | SIGWINCH | SIGURG.

Definition Signal_eqb (a b : Signal) : bool :=
  match a, b with
  | SIGHUP, SIGHUP | SIGINT, SIGINT | SIGQUIT, SIGQUIT
  | SIGKILL, SIGKILL | SIGTERM, SIGTERM
  | SIGUSR1, SIGUSR1 | SIGUSR2, SIGUSR2 | SIGCHLD, SIGCHLD
  | SIGWINCH, SIGWINCH | SIGURG, SIGURG => true
  | _, _ => false
  end.

(** What the Go runtime does with a signal that no [signal.Notify] has
    asked for (package os/signal, "Default behavior of signals in Go
    programs"): SIGHUP, SIGINT and SIGTERM make the program exit, killed by
    the signal; SIGQUIT makes it exit with a stack dump, with code 2;
    SIGKILL cannot be caught; the others are caught and nothing is done. *)
Inductive Disposition : Type :=
| KilledBySignal
| StackDump
| NoAction.

Definition default_disposition (s : Signal) : Disposition :=
  match s with
  | SIGHUP | SIGINT | SIGTERM | SIGKILL => KilledBySignal
  | SIGQUIT => StackDump
  | SIGUSR1 | SIGUSR2 | SIGCHLD | SIGWINCH | SIGURG => NoAction
  end.

(** [time.Duration] is a count of nanoseconds. *)
Definition Duration := Z.
Definition Second : Duration := 1000000000.

(** ** fmt.Sprintf, for the verbs the sources use *)

Inductive Arg : Type :=
| AStr (s : string)
| AInt (n : Z)
| AErr (e : error).

(** Decimal rendering of a Go [int]. *)
Definition itoa (n : Z) : string := NilZero.string_of_int (Z.to_int n).

(** [%s] and [%v] print a string as it is and an error through [Error()];
    [%d] and [%v] print an integer in decimal.  Any other pairing makes Go
    print a [%!verb(...)] diagnostic; the sources never do that and the
    diagnostic is only marked here. *)
Definition fmt_verb (v : ascii) (a : Arg) : string :=
  match a with
  | AStr s => if Ascii.eqb v "s" || Ascii.eqb v "v" then s
              else "%!" ++ String v "(string)"
  | AInt n => if Ascii.eqb v "d" || Ascii.eqb v "v" then itoa n
              else "%!" ++ String v "(int)"
  | AErr e => if Ascii.eqb v "s" || Ascii.eqb v "v" then Error e
              else "%!" ++ String v "(error)"
  end.

Fixpoint Sprintf (format : string) (args : list Arg) : string :=
  match format with
  | EmptyString => EmptyString
  | String c rest =>
      if Ascii.eqb c "%" then
        match rest with
        | EmptyString => "%!(NOVERB)"
        | String v rest' =>
            match args with
            | a :: args' => fmt_verb v a ++ Sprintf rest' args'
            | [] => "%!" ++ String v "(MISSING)" ++ Sprintf rest' []
            end
        end
      else String c (Sprintf rest args)
  end.

(** The newline of Go's ["\n"]. *)
Definition nl : string := String (ascii_of_nat 10) EmptyString.

(** [strings.Contains]. *)
Fixpoint Contains (s substr : string) : bool :=
  String.prefix substr s ||
  match s with
  | EmptyString => false
  | String _ s' => Contains s' substr
  end.

(** ** zap: levels, encoders, loggers *)

Inductive ZapLevel : Type :=
| DebugLevel | InfoLevel | WarnLevel | ErrorLevel
| DPanicLevel | PanicLevel | FatalLevel.

Inductive TimeEncoder : Type := EpochTimeEncoder | ISO8601TimeEncoder | OtherTimeEncoder.
Inductive LevelEncoder : Type := LowercaseLevelEncoder | CapitalLevelEncoder | OtherLevelEncoder.
Inductive DurationEncoder : Type := SecondsDurationEncoder | OtherDurationEncoder.
Inductive CallerEncoder : Type := ShortCallerEncoder | FullCallerEncoder.

(** The fields of [zapcore.EncoderConfig] that [getEncoder] assigns; the
    others keep what [zap.NewProductionEncoderConfig] put there, carried
    opaquely in [OtherKeys]. *)
Record EncoderConfig : Type := {
  TimeKey : string;
  EncodeTime : TimeEncoder;
  EncodeLevel : LevelEncoder;
  EncodeDuration : DurationEncoder;
  EncodeCaller : CallerEncoder;
  OtherKeys : list (string * string)
}.

(** Assignments to the fields of an encoder configuration. *)
Definition with_TimeKey (k : string) (c : EncoderConfig) : EncoderConfig :=
  {| TimeKey := k; EncodeTime := EncodeTime c; EncodeLevel := EncodeLevel c;
     EncodeDuration := EncodeDuration c; EncodeCaller := EncodeCaller c;
     OtherKeys := OtherKeys c |}.

Definition with_EncodeTime (e : TimeEncoder) (c : EncoderConfig) : EncoderConfig :=
  {| TimeKey := TimeKey c; EncodeTime := e; EncodeLevel := EncodeLevel c;
     EncodeDuration := EncodeDuration c; EncodeCaller := EncodeCaller c;
     OtherKeys := OtherKeys c |}.

Definition with_EncodeLevel (e : LevelEncoder) (c : EncoderConfig) : EncoderConfig :=
  {| TimeKey := TimeKey c; EncodeTime := EncodeTime c; EncodeLevel := e;
     EncodeDuration := EncodeDuration c; EncodeCaller := EncodeCaller c;
     OtherKeys := OtherKeys c |}.

Definition with_EncodeDuration (e : DurationEncoder) (c : EncoderConfig)
    : EncoderConfig :=
  {| TimeKey := TimeKey c; EncodeTime := EncodeTime c; EncodeLevel := EncodeLevel c;
     EncodeDuration := e; EncodeCaller := EncodeCaller c;
     OtherKeys := OtherKeys c |}.

Definition with_EncodeCaller (e : CallerEncoder) (c : EncoderConfig) : EncoderConfig :=
  {| TimeKey := TimeKey c; EncodeTime := EncodeTime c; EncodeLevel := EncodeLevel c;
     EncodeDuration := EncodeDuration c; EncodeCaller := e;
     OtherKeys := OtherKeys c |}.

Inductive Encoder : Type :=
| JSONEncoder (cfg : EncoderConfig)
| ConsoleEncoder (cfg : EncoderConfig).

(** [lumberjack.Logger], the rotating file writer. *)
Record LumberjackLogger : Type := {
  lj_Filename : string;
  lj_MaxSize : Z;
  lj_MaxBackups : Z;
  lj_MaxAge : Z
}.

Inductive WriteSyncer : Type :=
| AddSync (w : LumberjackLogger).

(** [zapcore.NewCore(enc, ws, level)] wrapped by [zap.New(core, opts...)]. *)
Record Logger : Type := {
  core_enc : Encoder;
  core_ws : WriteSyncer;
  core_level : ZapLevel;
  addCaller : bool
}.

(** Structured log fields. *)
Inductive Field : Type :=
| zap_Error (e : error)                       (* zap.Error(err) *)
| zap_Any (key : string) (v : PanicVal)       (* zap.Any(key, v) *)
| zap_String (key : string) (s : string).     (* zap.String(key, s) *)

(** ** The world outside the program *)

(** [sql.DB] as far as the connector configures it: the driver and data
    source name it was opened with and the two pool limits as database/sql
    keeps them: [maxOpen] (zero: no limit) and [maxIdleCount] (zero: the
    default of two idle connections; negative: none). *)
Record DB : Type := {
  driverName : string;
  dataSourceName : string;
  maxOpen : Z;
  maxIdleCount : Z
}.

Definition with_maxOpen (n : Z) (d : DB) : DB :=
  {| driverName := driverName d; dataSourceName := dataSourceName d;
     maxOpen := n; maxIdleCount := maxIdleCount d |}.

Definition with_maxIdleCount (n : Z) (d : DB) : DB :=
  {| driverName := driverName d; dataSourceName := dataSourceName d;
     maxOpen := maxOpen d; maxIdleCount := n |}.

Definition defaultMaxIdleConns : Z := 2.

(** database/sql: [db.maxIdleConnsLocked()]. *)
Definition maxIdleConnsLocked (d : DB) : Z :=
  let n := maxIdleCount d in
  if n =? 0 then defaultMaxIdleConns
  else if n <? 0 then 0
  else n.

(** database/sql: what [db.SetMaxIdleConns(n)] does to the limits: a
    non-positive [n] means no idle connection, and the limit never exceeds
    that of the open connections. *)
Definition sql_SetMaxIdleConns (n : Z) (d : DB) : DB :=
  let d := if 0 <? n then with_maxIdleCount n d else with_maxIdleCount (-1) d in
  if (0 <? maxOpen d) && (maxOpen d <? maxIdleConnsLocked d)
  then with_maxIdleCount (maxOpen d) d
  else d.

(** database/sql: what [db.SetMaxOpenConns(n)] does to the limits: a
    negative [n] means no limit, and the idle limit is brought down to the
    new one when it exceeds it. *)
Definition sql_SetMaxOpenConns (n : Z) (d : DB) : DB :=
  let d := with_maxOpen n d in
  let d := if n <? 0 then with_maxOpen 0 d else d in
  let syncMaxIdle := (0 <? maxOpen d) && (maxOpen d <? maxIdleConnsLocked d) in
  if syncMaxIdle then sql_SetMaxIdleConns n d else d.

(** What the process does to the outside, in the order it happens. *)
Inductive Event : Type :=
| EvPrintf (text : string)                                     (* fmt.Printf *)
| EvZap (lvl : ZapLevel) (msg : string) (fields : list Field)  (* zap.L().Lvl(msg, fields...) *)
| EvReplaceGlobals (lg : Logger)                               (* zap.ReplaceGlobals(lg) *)
| EvSync                                                       (* zap.L().Sync() *)
| EvLogFatalf (text : string)                                  (* log.Fatalf *)
| EvSettingsInit                                               (* settings.Init() *)
| EvSqlxConnect (driver dsn : string)                          (* sqlx.Connect *)
| EvSetMaxOpenConns (n : Z)
| EvSetMaxIdleConns (n : Z)
| EvDBClose                                                    (* db.Close() *)
| EvRedisInit                                                  (* redis.Init() *)
| EvRedisClose                                                 (* redis.Close() *)
| EvRoutesSetup                                                (* routes.Setup() *)
| EvGo                                                         (* go func() {...}() *)
| EvListenAndServe (addr : string)                             (* srv.ListenAndServe() *)
| EvNotify (sigs : list Signal)                                (* signal.Notify(quit, sigs...) *)
| EvRecv (s : Signal)                                          (* <-quit *)
| EvWithTimeout (d : Duration)                                 (* context.WithTimeout *)
| EvCancel                                                     (* cancel() *)
| EvShutdown (deadline : Duration)                             (* srv.Shutdown(ctx) is called *)
| EvShutdownReturn (r : err_result).                           (* srv.Shutdown(ctx) returns *)

(** Package-level state and the trace. *)
Record World : Type := {
  zap_global : option Logger;   (* zap's global logger; None: the initial no-op logger *)
  db : option DB;               (* var db *sqlx.DB of package mysql *)
  out : list Event
}.

Definition world0 : World := {| zap_global := None; db := None; out := [] |}.

Definition emit (e : Event) (w : World) : World :=
  {| zap_global := zap_global w; db := db w; out := out w ++ [e] |}.

Definition set_db (d : option DB) (w : World) : World :=
  {| zap_global := zap_global w; db := d; out := out w |}.

Definition set_zap_global (lg : option Logger) (w : World) : World :=
  {| zap_global := lg; db := db w; out := out w |}.

(** Modelled from the spec: package [settings] is not among the sources.
    The records hold the fields the sources read from it ([cfg.Level],
    [cfg.User], ...), which are those of the spec's "configuration
    consumed"; the integer fields are Go [int]s. *)
Module settings.

Record LogConfig : Type := {
  Level : string;
  Filename : string;
  MaxSize : Z;
  MaxBackups : Z;
  MaxAge : Z
}.

Record MySQLConfig : Type := {
  Host : string;
  User : string;
  Password : string;
  DbName : string;
  Port : Z;
  MaxOpenConns : Z;
  MaxIdleConns : Z
}.

(** [settings.Conf]: the two sub-configurations are held by pointer. *)
Record AppConfig : Type := {
  LogConfig_ : option LogConfig;
  MySQLConfig_ : option MySQLConfig
}.

End settings.

Inductive result (A : Type) : Type :=
| Ok (a : A)
| Failed (e : error).
Arguments Ok {A} a.
Arguments Failed {A} e.

(** Everything the sources call but do not define: the libraries, and the
    packages [settings], [dao/redis] and [routes] of the repository, which
    are not among the sources.  Each field is the outcome the callee
    produces in the run under consideration; a call of [redis.Close] or
    [routes.Setup] is recorded in the trace and returns. *)
Record Extern : Type := {
  (* zapcore *)
  UnmarshalText : string -> result ZapLevel;            (* level.UnmarshalText *)
  NewProductionEncoderConfig : EncoderConfig;
  (* package settings and viper *)
  settings_Init : err_result;
  settings_Conf : settings.AppConfig;                   (* settings.Conf after Init *)
  viper_app_port : Z;                                   (* viper.GetInt("app.port") *)
  (* sqlx *)
  sqlx_Connect : string -> string -> err_result;
  (* package dao/redis *)
  redis_Init : err_result;
  (* net/http *)
  srv_Shutdown : Duration -> err_result;                (* srv.Shutdown(ctx), by the timeout of ctx *)
  (* strings, runtime/debug *)
  strings_ToLower : string -> string;
  debug_Stack : string
}.

(** ** The monad of Go computations: state and panics *)

Inductive Res (A : Type) : Type :=
| Val (a : A)
| Panic (v : PanicVal).
Arguments Val {A} a.
Arguments Panic {A} v.

Definition M (S A : Type) : Type := S -> Res A * S.

Definition ret {S A : Type} (a : A) : M S A := fun s => (Val a, s).

Definition bind {S A B : Type} (c : M S A) (k : A -> M S B) : M S B :=
  fun s =>
    match c s with
    | (Val a, s') => k a s'
    | (Panic v, s') => (Panic v, s')
    end.

Definition panic {S A : Type} (v : PanicVal) : M S A := fun s => (Panic v, s).

Definition gets {S A : Type} (f : S -> A) : M S A := fun s => (Val (f s), s).

Definition modify {S : Type} (f : S -> S) : M S unit := fun s => (Val tt, f s).

Declare Scope go_scope.
Delimit Scope go_scope with go.
Notation "x <- c ;; k" := (bind c (fun x => k))
  (at level 61, c at next level, right associativity) : go_scope.
Notation "c ;; k" := (bind c (fun _ => k))
  (at level 61, right associativity) : go_scope.
Open Scope go_scope.

(** Dereferencing a pointer: nil panics. *)
Definition deref {S A : Type} (p : option A) : M S A :=
  match p with
  | Some a => ret a
  | None => panic nil_dereference
  end.

(** [defer func() { if err := recover(); err != nil { handler } }()]
    around [body]: a panic of [body] is recovered and handled, after which
    the function returns normally; a panic of the handler itself leaves. *)
Definition defer_recover {S : Type} (handler : PanicVal -> M S unit)
    (body : M S unit) : M S unit :=
  fun s =>
    match body s with
    | (Val tt, s') => (Val tt, s')
    | (Panic v, s') => handler v s'
    end.

(** [zap.L().Lvl(msg, fields...)] for the levels below Fatal. *)
Definition zap_L_log (lvl : ZapLevel) (msg : string) (fields : list Field)
    : M World unit :=
  modify (emit (EvZap lvl msg fields)).

(** ** gin: the request context as the middleware uses it *)

(** [c.Request]: its path and what [httputil.DumpRequest(c.Request, false)]
    renders for it. *)
Record Request : Type := {
  URL_Path : string;
  DumpRequest : string
}.

(** The methods of [gin.Context] that [GinRecovery] calls on [c]. *)
Inductive GinCall : Type :=
| c_Error (err : PanicVal)       (* c.Error(err), err an error value *)
| c_Abort                        (* c.Abort() *)
| c_AbortWithStatus (code : Z).  (* c.AbortWithStatus(code) *)

(** A [*gin.Context]: the request and the calls made on it so far. *)
Record Context : Type := {
  c_Request : Request;
  c_calls : list GinCall
}.

Definition StatusInternalServerError : Z := 500.

(** A [gin.HandlerFunc] runs on the world and on the context it is given. *)
Definition HandlerFunc : Type := M (World * Context) unit.

Definition in_world (f : World -> World) : M (World * Context) unit :=
  modify (fun s => (f (fst s), snd s)).

Definition on_c (call : GinCall) : M (World * Context) unit :=
  modify (fun s => (fst s, {| c_Request := c_Request (snd s);
                              c_calls := c_calls (snd s) ++ [call] |})).

(** The type assertion [err.(error)]: it panics on a value that is no
    error, and yields the value itself on an error. *)
Definition assert_error {S : Type} (v : PanicVal) : M S PanicVal :=
  match v with
  | PanicOther repr =>
      panic (PanicError (RuntimeError
        ("interface conversion: interface {} is " ++ repr ++ ", not error")))
  | _ => ret v
  end.

(** ** Package logger: logger.Init and the recovery middleware *)
Module logger.
Import settings.

(* getLogWriter: a lumberjack rotating writer adapted with zapcore.AddSync *)
Definition getLogWriter (filename : string) (maxSize maxBackup maxAge : Z)
    : WriteSyncer :=
  let lumberJackLogger :=
    {| lj_Filename := filename;
       lj_MaxSize := maxSize;
       lj_MaxBackups := maxBackup;
       lj_MaxAge := maxAge |} in
  AddSync lumberJackLogger.

(* getEncoder: zap's production encoder configuration with the time key,
   and the time, level, duration and caller encoders assigned, as a JSON
   encoder *)
Definition getEncoder (x : Extern) : Encoder :=
  let encoderConfig := NewProductionEncoderConfig x in
  let encoderConfig := with_EncodeTime ISO8601TimeEncoder encoderConfig in
  let encoderConfig := with_TimeKey "time" encoderConfig in
  let encoderConfig := with_EncodeLevel CapitalLevelEncoder encoderConfig in
  let encoderConfig := with_EncodeDuration SecondsDurationEncoder encoderConfig in
  let encoderConfig := with_EncodeCaller ShortCallerEncoder encoderConfig in
  JSONEncoder encoderConfig.

(* zap.New(zapcore.NewCore(encoder, writeSyncer, level), zap.AddCaller()) *)
Definition zap_New (encoder : Encoder) (writeSyncer : WriteSyncer)
    (level : ZapLevel) : Logger :=
  {| core_enc := encoder; core_ws := writeSyncer; core_level := level;
     addCaller := true |}.

Definition ReplaceGlobals (lg : Logger) : M World unit :=
  modify (fun w => emit (EvReplaceGlobals lg) (set_zap_global (Some lg) w)).

Definition Init (x : Extern) (cfg : option LogConfig) : M World err_result :=
  cfg <- deref cfg ;;
  let writeSyncer :=
    getLogWriter (Filename cfg) (MaxSize cfg) (MaxBackups cfg) (MaxAge cfg) in
  let encoder := getEncoder x in
  match UnmarshalText x (Level cfg) with
  | Failed err => ret (Some err)
  | Ok level =>
      let lg := zap_New encoder writeSyncer level in
      ReplaceGlobals lg ;;
      ret None
  end.

(* What the test of GinRecovery on the recovered value finds when it runs
   to its end: a *net.OpError wrapping an *os.SyscallError whose text,
   lower-cased, mentions a broken pipe or a connection reset *)
Definition brokenPipe (x : Extern) (err : PanicVal) : bool :=
  match err with
  | PanicError (OpError _ _ _ _ ne_Err) =>
      match ne_Err with
      | SyscallError _ _ =>
          Contains (strings_ToLower x (Error ne_Err)) "broken pipe"
          || Contains (strings_ToLower x (Error ne_Err)) "connection reset by peer"
      | _ => false
      end
  | _ => false
  end.

(* GinRecovery(stack) is the handler below; [Next] is what c.Next() runs,
   the rest of the handler chain *)
(* l.144-151, the test as the deferred closure runs it: [ne.Err] is read
   through [ne], which the type assertion leaves nil on a nil
   *net.OpError, and [se.Error()] is called on whatever *os.SyscallError
   [ne.Err] holds; a panic of either leaves the closure *)
Definition brokenPipe_test {S : Type} (x : Extern) (err : PanicVal) : M S bool :=
  match err with
  | PanicError NilOpError => panic nil_dereference
  | PanicFaultyOpError _ _ _ _ raised => panic raised
  | _ => ret (brokenPipe x err)
  end.

Definition GinRecovery (x : Extern) (stack : bool) (Next : HandlerFunc)
    : HandlerFunc :=
  defer_recover
    (fun err =>
       brokenPipe <- brokenPipe_test x err ;;
       req <- gets (fun s => c_Request (snd s)) ;;
       let httpRequest := DumpRequest req in
       if brokenPipe then
         in_world (emit (EvZap ErrorLevel (URL_Path req)
                           [zap_Any "error" err;
                            zap_String "request" httpRequest])) ;;
         e <- assert_error err ;;
         on_c (c_Error e) ;;
         on_c c_Abort
       else
         (if stack then
            in_world (emit (EvZap ErrorLevel "[Recovery from panic]"
                              [zap_Any "error" err;
                               zap_String "request" httpRequest;
                               zap_String "stack" (debug_Stack x)]))
          else
            in_world (emit (EvZap ErrorLevel "[Recovery from panic]"
                              [zap_Any "error" err;
                               zap_String "request" httpRequest]))) ;;
         on_c (c_AbortWithStatus StatusInternalServerError))
    Next.

End logger.

(** ** Package mysql: mysql.Init and mysql.Close *)
Module mysql.
Import settings.

(* db, err = sqlx.Connect(driver, dsn): assigns the package variable;
   sqlx returns a nil handle together with a non-nil error *)
Definition Connect (x : Extern) (driver dsn : string) : M World err_result :=
  modify (emit (EvSqlxConnect driver dsn)) ;;
  match sqlx_Connect x driver dsn with
  | Some err =>
      modify (set_db None) ;;
      ret (Some err)
  | None =>
      modify (set_db (Some {| driverName := driver; dataSourceName := dsn;
                              maxOpen := 0; maxIdleCount := 0 |})) ;;
      ret None
  end.

(* db.SetMaxOpenConns(n) *)
Definition SetMaxOpenConns (n : Z) : M World unit :=
  p <- gets db ;;
  d <- deref p ;;
  modify (fun w => emit (EvSetMaxOpenConns n)
            (set_db (Some (sql_SetMaxOpenConns n d)) w)).

(* db.SetMaxIdleConns(n) *)
Definition SetMaxIdleConns (n : Z) : M World unit :=
  p <- gets db ;;
  d <- deref p ;;
  modify (fun w => emit (EvSetMaxIdleConns n)
            (set_db (Some (sql_SetMaxIdleConns n d)) w)).

Definition Init (x : Extern) (cfg : option MySQLConfig) : M World err_result :=
  cfg <- deref cfg ;;
  let dsn := Sprintf "%s:%s@tcp(%s:%d)/%s?charset=utf8mb4&parseTime=true"
               [AStr (User cfg); AStr (Password cfg); AStr (Host cfg);
                AInt (Port cfg); AStr (DbName cfg)] in
  err <- Connect x "mysql" dsn ;;
  match err with
  | Some e =>
      zap_L_log ErrorLevel "connect to DB failed" [zap_Error e] ;;
      ret (Some e)
  | None =>
      SetMaxOpenConns (MaxOpenConns cfg) ;;
      SetMaxIdleConns (MaxIdleConns cfg) ;;
      ret None
  end.

(* _ = db.Close(): the method is promoted from the embedded *sql.DB, so
   the call reads a field of db and panics on a nil db *)
Definition Close : M World unit :=
  p <- gets db ;;
  _ <- deref p ;;
  modify (emit EvDBClose).

End mysql.

(** ** Package main: the process supervisor *)
Module main.
Import settings.

(** The program points of [func main], one per statement; the local
    variables alive at a point are its arguments ([ctx] is given by its
    timeout).  The call at l.32 is that of package logger's [Init], the
    initialiser that takes a [*settings.LogConfig]. *)
Inductive PC : Type :=
| at_settings_Init                (* l.26  settings.Init() *)
| at_logger_Init                  (* l.32  logger.Init(settings.Conf.LogConfig) *)
| at_defer_Sync                   (* l.37  defer zap.L().Sync() *)
| at_Debug                        (* l.39  zap.L().Debug(...) *)
| at_mysql_Init                   (* l.42  mysql.Init(settings.Conf.MySQLConfig) *)
| at_defer_mysql_Close            (* l.46  defer mysql.Close() *)
| at_redis_Init                   (* l.49  redis.Init() *)
| at_defer_redis_Close            (* l.53  defer redis.Close() *)
| at_routes_Setup                 (* l.55  r := routes.Setup() *)
| at_new_Server                   (* l.57  srv := &http.Server{...} *)
| at_go                           (* l.62  go func() {...}() *)
| at_make_quit                    (* l.69  quit := make(chan os.Signal, 1) *)
| at_Notify                       (* l.74  signal.Notify(quit, SIGINT, SIGTERM) *)
| at_recv_quit                    (* l.75  <-quit *)
| at_Info                         (* l.76  zap.L().Info("Shutdown Server ...") *)
| at_WithTimeout                  (* l.78  ctx, cancel := context.WithTimeout(...) *)
| at_defer_cancel (ctx : Duration)  (* l.79  defer cancel() *)
| at_Shutdown (ctx : Duration)    (* l.81  srv.Shutdown(ctx) is called *)
| in_Shutdown (ctx : Duration)    (* l.81  srv.Shutdown(ctx) returns *)
| at_Fatal (err : error)          (* l.82  zap.L().Fatal("Server Shutdown", ...) *)
| at_Printf (err : error)         (* l.27, 33, 43, 50  fmt.Printf(...); return *)
| returning                       (* main returned: deferred calls run *)
| panicking (v : PanicVal).       (* main panics: deferred calls run *)

(** The calls registered by the [defer] statements of [main]. *)
Inductive Deferred : Type :=
| d_Sync             (* zap.L().Sync() *)
| d_mysql_Close      (* mysql.Close() *)
| d_redis_Close      (* redis.Close() *)
| d_cancel.          (* cancel() *)

(** [*http.Server]: the address it was given and whether [Shutdown] has
    been called on it. *)
Record Server : Type := {
  Addr : string;
  inShutdown : bool
}.

(** The goroutine started at l.62.  [srv.ListenAndServe] blocks while the
    server serves and always returns a non-nil error. *)
Inductive Listener : Type :=
| not_spawned
| spawned                   (* started, before srv.ListenAndServe() *)
| serving                   (* inside srv.ListenAndServe() *)
| returned (err : error)    (* srv.ListenAndServe() returned err, l.63 *)
| finished.                 (* the goroutine's function returned *)

Inductive Status : Type :=
| Running
| Exited (code : Z)         (* os.Exit(code), or main returned: code 0 *)
| Crashed (v : PanicVal)    (* an unrecovered panic: the runtime prints it
                               and exits with code 2 *)
| Killed (s : Signal)       (* killed by a signal: there is no exit code *)
| Dumped (s : Signal).      (* a signal on which the runtime dumps the
                               stacks and exits with code 2 *)


Record Proc : Type := {
  pc : PC;
  defers : list Deferred;   (* the defer stack of main, last deferred first *)
  world : World;
  srv : option Server;
  listener : Listener;
  notified : list Signal;   (* signals relayed to quit by signal.Notify *)
  quit : list Signal;       (* buffer of the quit channel, capacity 1 *)
  status : Status
}.

Definition init : Proc :=
  {| pc := at_settings_Init; defers := []; world := world0; srv := None;
     listener := not_spawned; notified := []; quit := []; status := Running |}.

Definition goto (l : PC) (p : Proc) : Proc :=
  {| pc := l; defers := defers p; world := world p; srv := srv p;
     listener := listener p; notified := notified p; quit := quit p;
     status := status p |}.

Definition set_defers (ds : list Deferred) (p : Proc) : Proc :=
  {| pc := pc p; defers := ds; world := world p; srv := srv p;
     listener := listener p; notified := notified p; quit := quit p;
     status := status p |}.

Definition set_world (w : World) (p : Proc) : Proc :=
  {| pc := pc p; defers := defers p; world := w; srv := srv p;
     listener := listener p; notified := notified p; quit := quit p;
     status := status p |}.

Definition set_srv (s : option Server) (p : Proc) : Proc :=
  {| pc := pc p; defers := defers p; world := world p; srv := s;
     listener := listener p; notified := notified p; quit := quit p;
     status := status p |}.

Definition set_listener (l : Listener) (p : Proc) : Proc :=
  {| pc := pc p; defers := defers p; world := world p; srv := srv p;
     listener := l; notified := notified p; quit := quit p;
     status := status p |}.

Definition set_notified (sigs : list Signal) (p : Proc) : Proc :=
  {| pc := pc p; defers := defers p; world := world p; srv := srv p;
     listener := listener p; notified := sigs; quit := quit p;
     status := status p |}.

Definition set_quit (q : list Signal) (p : Proc) : Proc :=
  {| pc := pc p; defers := defers p; world := world p; srv := srv p;
     listener := listener p; notified := notified p; quit := q;
     status := status p |}.

Definition set_status (st : Status) (p : Proc) : Proc :=
  {| pc := pc p; defers := defers p; world := world p; srv := srv p;
     listener := listener p; notified := notified p; quit := quit p;
     status := st |}.

Definition say (e : Event) (p : Proc) : Proc := set_world (emit e (world p)) p.

Definition push_defer (d : Deferred) (p : Proc) : Proc :=
  set_defers (d :: defers p) p.

(** [os.Exit(code)]: the process ends at once; no deferred call runs. *)
Definition os_Exit (code : Z) (p : Proc) : Proc := set_status (Exited code) p.

(** A call from [main] into a function that may panic: the next program
    point is chosen by the value returned; a panic starts unwinding. *)
Definition call {A : Type} (c : M World A) (k : A -> PC) (p : Proc) : Proc :=
  match c (world p) with
  | (Val a, w) => goto (k a) (set_world w p)
  | (Panic v, w) => goto (panicking v) (set_world w p)
  end.

(** [if err := f(); err != nil { fmt.Printf(...); return }] *)
Definition on_err (next : PC) (err : err_result) : PC :=
  match err with
  | Some e => at_Printf e
  | None => next
  end.

Definition run_deferred (d : Deferred) : M World unit :=
  match d with
  | d_Sync => modify (emit EvSync)
  | d_mysql_Close => mysql.Close
  | d_redis_Close => modify (emit EvRedisClose)
  | d_cancel => modify (emit EvCancel)
  end.

(** One statement of [main]; [None] when main is blocked. *)
Definition main_step (x : Extern) (p : Proc) : option Proc :=
  match pc p with
  | at_settings_Init =>
      Some (goto (on_err at_logger_Init (settings_Init x)) (say EvSettingsInit p))
  | at_logger_Init =>
      Some (call (logger.Init x (LogConfig_ (settings_Conf x)))
                 (on_err at_defer_Sync) p)
  | at_defer_Sync =>
      Some (goto at_Debug (push_defer d_Sync p))
  | at_Debug =>
      Some (call (zap_L_log DebugLevel "logger init success..." [])
                 (fun _ => at_mysql_Init) p)
  | at_mysql_Init =>
      Some (call (mysql.Init x (MySQLConfig_ (settings_Conf x)))
                 (on_err at_defer_mysql_Close) p)
  | at_defer_mysql_Close =>
      Some (goto at_redis_Init (push_defer d_mysql_Close p))
  | at_redis_Init =>
      Some (goto (on_err at_defer_redis_Close (redis_Init x)) (say EvRedisInit p))
  | at_defer_redis_Close =>
      Some (goto at_routes_Setup (push_defer d_redis_Close p))
  | at_routes_Setup =>
      Some (goto at_new_Server (say EvRoutesSetup p))
  | at_new_Server =>
      Some (goto at_go
              (set_srv (Some {| Addr := Sprintf ":%d" [AInt (viper_app_port x)];
                                inShutdown := false |}) p))
  | at_go =>
      Some (goto at_make_quit (set_listener spawned (say EvGo p)))
  | at_make_quit =>
      Some (goto at_Notify (set_quit [] p))
  | at_Notify =>
      Some (goto at_recv_quit
              (set_notified [SIGINT; SIGTERM] (say (EvNotify [SIGINT; SIGTERM]) p)))
  | at_recv_quit =>
      match quit p with
      | s :: rest => Some (goto at_Info (set_quit rest (say (EvRecv s) p)))
      | [] => None
      end
  | at_Info =>
      Some (call (zap_L_log InfoLevel "Shutdown Server ..." [])
                 (fun _ => at_WithTimeout) p)
  | at_WithTimeout =>
      Some (goto (at_defer_cancel (5 * Second)) (say (EvWithTimeout (5 * Second)) p))
  | at_defer_cancel ctx =>
      Some (goto (at_Shutdown ctx) (push_defer d_cancel p))
  | at_Shutdown ctx =>
      match srv p with
      | Some s =>
          Some (goto (in_Shutdown ctx)
                  (set_srv (Some {| Addr := Addr s; inShutdown := true |})
                     (say (EvShutdown ctx) p)))
      | None => Some (goto (panicking nil_dereference) p)
      end
  | in_Shutdown ctx =>
      let err := srv_Shutdown x ctx in
      Some (goto (match err with Some e => at_Fatal e | None => returning end)
              (say (EvShutdownReturn err) p))
  | at_Fatal err =>
      (* zap's Fatal writes the entry and then calls os.Exit(1) *)
      Some (os_Exit 1 (say (EvZap FatalLevel "Server Shutdown" [zap_Error err]) p))
  | at_Printf err =>
      Some (goto returning
              (say (EvPrintf (Sprintf ("init setting failed error:%v" ++ nl) [AErr err])) p))
  | returning =>
      match defers p with
      | d :: ds => Some (call (run_deferred d) (fun _ => returning) (set_defers ds p))
      | [] => Some (set_status (Exited 0) p)
      end
  | panicking v =>
      match defers p with
      | d :: ds => Some (call (run_deferred d) (fun _ => panicking v) (set_defers ds p))
      | [] => Some (set_status (Crashed v) p)
      end
  end.

(** One step of the goroutine of l.62-66.  [fail] is what the network
    makes of this step: the error with which listening or accepting
    fails now, if it does.  Once [Shutdown] has been called on the server,
    [ListenAndServe] returns [http.ErrServerClosed].  [None]: the
    goroutine is blocked, or is not there. *)
Definition listener_step (fail : option error) (p : Proc) : option Proc :=
  match listener p with
  | not_spawned => None
  | spawned =>
      match srv p with
      | Some s =>
          let p := say (EvListenAndServe (Addr s)) p in
          if inShutdown s then Some (set_listener (returned ErrServerClosed) p)
          else match fail with
               | Some e => Some (set_listener (returned e) p)
               | None => Some (set_listener serving p)
               end
      | None => Some (set_status (Crashed nil_dereference) p)
      end
  | serving =>
      match srv p with
      | Some s =>
          if inShutdown s then Some (set_listener (returned ErrServerClosed) p)
          else match fail with
               | Some e => Some (set_listener (returned e) p)
               | None => None
               end
      | None => Some (set_status (Crashed nil_dereference) p)
      end
  | returned err =>
      (* if err != nil && err != http.ErrServerClosed { log.Fatalf(...) } *)
      if negb (is_ErrServerClosed err) then
        Some (os_Exit 1 (say (EvLogFatalf (Sprintf ("listen: %s" ++ nl) [AErr err])) p))
      else Some (set_listener finished p)
  | finished => None
  end.

(** The operating system sends signal [s].  A signal registered with
    [signal.Notify] is sent on [quit] without blocking, so it is dropped
    when the buffer is full; any other signal gets what the Go runtime does
    by default. *)
Definition deliver (s : Signal) (p : Proc) : Proc :=
  if existsb (Signal_eqb s) (notified p) then
    if (length (quit p) <? 1)%nat then set_quit (quit p ++ [s]) p else p
  else match default_disposition s with
       | KilledBySignal => set_status (Killed s) p
       | StackDump => set_status (Dumped s) p
       | NoAction => p
       end.

(** What happens next is chosen by the scheduler and the environment. *)
Inductive Choice : Type :=
| RunMain
| RunListener (fail : option error)
| Deliver (s : Signal).

Definition step (x : Extern) (c : Choice) (p : Proc) : option Proc :=
  match status p with
  | Running =>
      match c with
      | RunMain => main_step x p
      | RunListener fail => listener_step fail p
      | Deliver s => Some (deliver s p)
      end
  | _ => None
  end.

(** A run: the choices are taken in order; [None] if one is not enabled. *)
Fixpoint run (x : Extern) (cs : list Choice) (p : Proc) : option Proc :=
  match cs with
  | [] => Some p
  | c :: cs' =>
      match step x c p with
      | Some p' => run x cs' p'
      | None => None
      end
  end.

(** The states the process can be in. *)
Definition reachable (x : Extern) (p : Proc) : Prop :=
  exists cs, run x cs init = Some p.

Definition trace (p : Proc) : list Event := out (world p).

End main.

(** ** Vocabulary of the properties *)

Import main.

Definition is_DBClose (e : Event) : bool :=
  match e with EvDBClose => true | _ => false end.

Definition is_RedisClose (e : Event) : bool :=
  match e with EvRedisClose => true | _ => false end.

(** A teardown of a store connection: [mysql.Close] reaching [db.Close()],
    or [redis.Close]. *)
Definition is_teardown (e : Event) : bool := is_DBClose e || is_RedisClose e.

(** How many events of a kind a trace holds. *)
Definition count (f : Event -> bool) (t : list Event) : nat := length (filter f t).

(** A call returns the error result [r] (nil: [None]) without panicking.
    The initialisers do not read the world, so the empty one will do. *)
Definition returns (c : M World err_result) (r : err_result) : Prop :=
  fst (c world0) = Val r.

Definition settings_ok (x : Extern) : Prop := settings_Init x = None.
Definition logger_ok (x : Extern) : Prop :=
  returns (logger.Init x (settings.LogConfig_ (settings_Conf x))) None.
Definition mysql_ok (x : Extern) : Prop :=
  returns (mysql.Init x (settings.MySQLConfig_ (settings_Conf x))) None.
Definition redis_ok (x : Extern) : Prop := redis_Init x = None.

(** Configuration loading and the three initialisers all succeed. *)
Definition all_ok (x : Extern) : Prop :=
  settings_ok x /\ logger_ok x /\ mysql_ok x /\ redis_ok x.

(** [main] runs one of the four initialisations and it fails with [e]:
    the ones before it have succeeded. *)
Inductive init_fails (x : Extern) (e : error) : Prop :=
| settings_fails :
    settings_Init x = Some e -> init_fails x e
| logger_fails :
    settings_ok x ->
    returns (logger.Init x (settings.LogConfig_ (settings_Conf x))) (Some e) ->
    init_fails x e
| mysql_fails :
    settings_ok x -> logger_ok x ->
    returns (mysql.Init x (settings.MySQLConfig_ (settings_Conf x))) (Some e) ->
    init_fails x e
| redis_fails :
    settings_ok x -> logger_ok x -> mysql_ok x ->
    redis_Init x = Some e -> init_fails x e.

(** The HTTP server exists, or its goroutine does, or the trace shows
    either. *)
Definition listener_started (p : Proc) : Prop :=
  srv p <> None \/ listener p <> not_spawned \/ In EvGo (trace p)
  \/ exists addr, In (EvListenAndServe addr) (trace p).

Definition termination_signal (s : Signal) : Prop := s = SIGINT \/ s = SIGTERM.

(** In trace [t] every event of kind [f] comes after event [a]. *)
Definition all_after (a : Event) (f : Event -> bool) (t : list Event) : Prop :=
  forall l1 e l2, t = (l1 ++ e :: l2)%list -> f e = true -> In a l1.

(** In trace [t] every call of [srv.Shutdown] comes after the receipt of a
    termination signal. *)
Definition shutdown_after_receipt (t : list Event) : Prop :=
  forall l1 d l2, t = (l1 ++ EvShutdown d :: l2)%list ->
    exists s, termination_signal s /\ In (EvRecv s) l1.

(** The data source name that [mysql.Init] must build, spelled out. *)
Definition dsn_of (cfg : settings.MySQLConfig) : string :=
  settings.User cfg ++ ":" ++ settings.Password cfg ++ "@tcp(" ++
  settings.Host cfg ++ ":" ++ itoa (settings.Port cfg) ++ ")/" ++
  settings.DbName cfg ++ "?charset=utf8mb4&parseTime=true".

(** The logger that [logger.Init] must install for a configuration whose
    level parses to [lvl]. *)
Definition logger_of (x : Extern) (cfg : settings.LogConfig) (lvl : ZapLevel)
    : Logger :=
  {| core_enc :=
       JSONEncoder
         {| TimeKey := "time";
            EncodeTime := ISO8601TimeEncoder;
            EncodeLevel := CapitalLevelEncoder;
            EncodeDuration := SecondsDurationEncoder;
            EncodeCaller := ShortCallerEncoder;
            OtherKeys := OtherKeys (NewProductionEncoderConfig x) |};
     core_ws :=
       AddSync {| lj_Filename := settings.Filename cfg;
                  lj_MaxSize := settings.MaxSize cfg;
                  lj_MaxBackups := settings.MaxBackups cfg;
                  lj_MaxAge := settings.MaxAge cfg |};
     core_level := lvl;
     addCaller := true |}.

(** The entry [GinRecovery] logs for a panic that is no broken pipe. *)
Definition recovery_entry (x : Extern) (stack : bool) (v : PanicVal)
    (req : Request) : Event :=
  EvZap ErrorLevel "[Recovery from panic]"
    ([zap_Any "error" v; zap_String "request" (DumpRequest req)]
     ++ if stack then [zap_String "stack" (debug_Stack x)] else [])%list.

(** The entry [GinRecovery] logs for a broken pipe. *)
Definition broken_pipe_entry (v : PanicVal) (req : Request) : Event :=
  EvZap ErrorLevel (URL_Path req)
    [zap_Any "error" v; zap_String "request" (DumpRequest req)].

Definition with_calls (c : Context) (calls : list GinCall) : Context :=
  {| c_Request := c_Request c; c_calls := c_calls c ++ calls |}.

(** ** The invariant of the supervisor *)

Definition is_d_mysql_Close (d : Deferred) : bool :=
  match d with d_mysql_Close => true | _ => false end.

Definition is_d_redis_Close (d : Deferred) : bool :=
  match d with d_redis_Close => true | _ => false end.

(** How many deferred calls of a kind are still on the defer stack. *)
Definition pending (f : Deferred -> bool) (ds : list Deferred) : nat :=
  length (filter f ds).

(** The position of a program point in the text of [main]; the three
    unwinding points come last. *)
Definition idx (l : PC) : nat :=
  match l with
  | at_settings_Init => 0
  | at_logger_Init => 1
  | at_defer_Sync => 2
  | at_Debug => 3
  | at_mysql_Init => 4
  | at_defer_mysql_Close => 5
  | at_redis_Init => 6
  | at_defer_redis_Close => 7
  | at_routes_Setup => 8
  | at_new_Server => 9
  | at_go => 10
  | at_make_quit => 11
  | at_Notify => 12
  | at_recv_quit => 13
  | at_Info => 14
  | at_WithTimeout => 15
  | at_defer_cancel _ => 16
  | at_Shutdown _ => 17
  | in_Shutdown _ => 18
  | at_Fatal _ => 19
  | at_Printf _ => 20
  | returning => 21
  | panicking _ => 22
  end%nat.

Definition within (lo hi i : nat) : bool := (lo <=? i)%nat && (i <=? hi)%nat.

(** The defer stack at the program points where it is known exactly. *)
Definition stack_at (i : nat) : option (list Deferred) :=
  if (i <=? 2)%nat then Some []
  else if (i <=? 5)%nat then Some [d_Sync]
  else if (i <=? 7)%nat then Some [d_mysql_Close; d_Sync]
  else if (i <=? 16)%nat then Some [d_redis_Close; d_mysql_Close; d_Sync]
  else if (i <=? 19)%nat then Some [d_cancel; d_redis_Close; d_mysql_Close; d_Sync]
  else None.

(** The context carried by a program point, if it carries one. *)
Definition ctx_of (l : PC) : option Duration :=
  match l with
  | at_defer_cancel ctx | at_Shutdown ctx | in_Shutdown ctx => Some ctx
  | _ => None
  end.

Record Inv (x : Extern) (p : Proc) : Prop := {
  (* facts tied to the program point *)
  inv_quiet : within 0 20 (idx (pc p)) = true ->
    count is_DBClose (trace p) = O /\ count is_RedisClose (trace p) = O;
  inv_not_started : within 0 10 (idx (pc p)) || within 20 20 (idx (pc p)) = true ->
    listener p = not_spawned /\ ~ In EvGo (trace p)
    /\ (forall a, ~ In (EvListenAndServe a) (trace p));
  inv_no_srv : within 0 9 (idx (pc p)) || within 20 20 (idx (pc p)) = true ->
    srv p = None;
  inv_srv : within 10 17 (idx (pc p)) = true -> srv p <> None;
  inv_gone : within 11 19 (idx (pc p)) = true -> In EvGo (trace p);
  inv_spawned : within 11 19 (idx (pc p)) = true -> listener p <> not_spawned;
  inv_stack : forall ds, stack_at (idx (pc p)) = Some ds -> defers p = ds;
  inv_settings : within 1 19 (idx (pc p)) = true -> settings_ok x;
  inv_logger : within 2 19 (idx (pc p)) = true -> logger_ok x;
  inv_mysql : within 5 19 (idx (pc p)) = true -> mysql_ok x;
  inv_redis : within 7 19 (idx (pc p)) = true -> redis_ok x;
  inv_handle : within 5 5 (idx (pc p)) = true -> db (world p) <> None;
  inv_notified : within 13 13 (idx (pc p)) = true -> notified p = [SIGINT; SIGTERM];
  inv_received : within 14 17 (idx (pc p)) = true ->
    exists s, termination_signal s /\ In (EvRecv s) (trace p);
  inv_ctx : forall ctx, ctx_of (pc p) = Some ctx -> ctx = 5 * Second;
  inv_unwinding : within 21 22 (idx (pc p)) = true ->
    In EvGo (trace p) -> In (EvShutdownReturn None) (trace p);
  (* facts that hold throughout *)
  inv_once :
    (count is_DBClose (trace p) + pending is_d_mysql_Close (defers p) <= 1)%nat
    /\ (count is_RedisClose (trace p) + pending is_d_redis_Close (defers p) <= 1)%nat;
  inv_owed : In EvGo (trace p) ->
    (count is_DBClose (trace p) + pending is_d_mysql_Close (defers p) = 1)%nat
    /\ (count is_RedisClose (trace p) + pending is_d_redis_Close (defers p) = 1)%nat;
  inv_db : In d_mysql_Close (defers p) -> db (world p) <> None;
  inv_exit0 : status p = Exited 0 -> defers p = [] /\ pc p = returning;
  inv_failed : forall e, In (EvShutdownReturn (Some e)) (trace p) -> pc p = at_Fatal e;
  inv_returning : In (EvShutdownReturn None) (trace p) -> pc p = returning;
  inv_after : In EvGo (trace p) ->
    all_after (EvShutdownReturn None) is_teardown (trace p);
  inv_receipt : shutdown_after_receipt (trace p);
  inv_deadline : forall d, In (EvShutdown d) (trace p) -> d = 5 * Second;
  inv_recv : forall s, In (EvRecv s) (trace p) -> termination_signal s;
  inv_quit : Forall termination_signal (quit p);
  inv_registered : notified p = [] \/ notified p = [SIGINT; SIGTERM];
  inv_Notify : forall sigs, In (EvNotify sigs) (trace p) -> sigs = [SIGINT; SIGTERM];
  inv_started : listener_started p -> all_ok x;
  inv_Fatalf : forall t, In (EvLogFatalf t) (trace p) ->
    status p = Exited 1 /\
    exists e, listener p = returned e /\ is_ErrServerClosed e = false
              /\ t = ("listen: " ++ Error e ++ nl)%string;
  inv_returned : (exists r, In (EvShutdownReturn r) (trace p)) -> In EvGo (trace p)
}.

(** Events that the listener goroutine, not [main], produces. *)
Definition is_listener_event (e : Event) : bool :=
  match e with
  | EvListenAndServe _ | EvLogFatalf _ => true
  | _ => false
  end.

(** ** Schedules *)

(** [main] alone, from its first statement up to the wait on [quit]. *)
Definition until_recv_quit : list Choice := repeat RunMain 13.

(** A run to a normal shutdown: start-up, the listener starts serving,
    signal [s] arrives, [main] runs to its end. *)
Definition normal_schedule (s : Signal) : list Choice :=
  until_recv_quit ++ [RunListener None; Deliver s] ++ repeat RunMain 11.

(** The same up to the moment the process ends in [zap.L().Fatal]. *)
Definition fatal_schedule (s : Signal) : list Choice :=
  until_recv_quit ++ [RunListener None; Deliver s] ++ repeat RunMain 7.

(** ** An example environment *)

Definition example_LogConfig : settings.LogConfig :=
  {| settings.Level := "info"; settings.Filename := "web_app.log";
     settings.MaxSize := 200; settings.MaxBackups := 7; settings.MaxAge := 30 |}.

Definition example_MySQLConfig : settings.MySQLConfig :=
  {| settings.Host := "127.0.0.1"; settings.User := "root";
     settings.Password := "secret"; settings.DbName := "web_app";
     settings.Port := 3306;
     settings.MaxOpenConns := 200; settings.MaxIdleConns := 50 |}.

(** A pool whose configured idle limit exceeds the limit of open
    connections. *)
Definition small_pool_MySQLConfig : settings.MySQLConfig :=
  {| settings.Host := "127.0.0.1"; settings.User := "root";
     settings.Password := "secret"; settings.DbName := "web_app";
     settings.Port := 3306;
     settings.MaxOpenConns := 10; settings.MaxIdleConns := 50 |}.

(** A level parser that knows the lower-case names. *)
Definition example_UnmarshalText (text : string) : result ZapLevel :=
  if String.eqb text "debug" then Ok DebugLevel
  else if String.eqb text "info" then Ok InfoLevel
  else if String.eqb text "warn" then Ok WarnLevel
  else if String.eqb text "error" then Ok ErrorLevel
  else if String.eqb text "dpanic" then Ok DPanicLevel
  else if String.eqb text "panic" then Ok PanicLevel
  else if String.eqb text "fatal" then Ok FatalLevel
  else Failed (ErrorString ("unrecognized level: " ++ text)).

(** Lower-casing of ASCII letters. *)
Definition ascii_ToLower (c : ascii) : ascii :=
  let n := nat_of_ascii c in
  if ((65 <=? n) && (n <=? 90))%nat then ascii_of_nat (n + 32) else c.

Fixpoint example_ToLower (s : string) : string :=
  match s with
  | EmptyString => EmptyString
  | String c s' => String (ascii_ToLower c) (example_ToLower s')
  end.

(** The environment is given by the outcomes of [sqlx.Connect],
    [redis.Init] and [srv.Shutdown]; everything else works. *)
Definition example_extern (connect redis shutdown : err_result) : Extern :=
  {| UnmarshalText := example_UnmarshalText;
     NewProductionEncoderConfig :=
       {| TimeKey := "ts"; EncodeTime := EpochTimeEncoder;
          EncodeLevel := LowercaseLevelEncoder;
          EncodeDuration := SecondsDurationEncoder;
          EncodeCaller := ShortCallerEncoder;
          OtherKeys := [("LevelKey", "level"); ("MessageKey", "msg")] |};
     settings_Init := None;
     settings_Conf := {| settings.LogConfig_ := Some example_LogConfig;
                         settings.MySQLConfig_ := Some example_MySQLConfig |};
     viper_app_port := 8081;
     sqlx_Connect := fun _ _ => connect;
     redis_Init := redis;
     srv_Shutdown := fun _ => shutdown;
     strings_ToLower := example_ToLower;
     debug_Stack := "goroutine 1 [running]" |}.

(** The state a run ends in ([init] if the schedule cannot be run). *)
Definition state_after (x : Extern) (cs : list Choice) : Proc :=
  match run x cs init with
  | Some p => p
  | None => init
  end.

(** ** Example runs *)

(** Everything works. *)
Definition x_ok : Extern := example_extern None None None.

(** The database refuses the connection. *)
Definition connection_refused : error :=
  ErrorString "dial tcp 127.0.0.1:3306: connect: connection refused".

Definition x_refused : Extern := example_extern (Some connection_refused) None None.

(** [srv.Shutdown] runs into its deadline. *)
Definition x_deadline : Extern := example_extern None None (Some DeadlineExceeded).

(** The port is taken when the listener starts. *)
Definition address_in_use : error :=
  ErrorString "listen tcp :8081: bind: address already in use".

(** [main] waits on [quit] and the listener serves. *)
Definition p_serving : Proc :=
  state_after x_ok (until_recv_quit ++ [RunListener None]).

(** [main] waits on [quit] and [srv.ListenAndServe] has just failed. *)
Definition p_listen_failed : Proc :=
  state_after x_ok (until_recv_quit ++ [RunListener (Some address_in_use)]).

(** SIGINT has arrived, [main] has called [srv.Shutdown], and
    [srv.ListenAndServe] has returned in the goroutine. *)
Definition p_server_closed : Proc :=
  state_after x_ok (until_recv_quit ++ [RunListener None; Deliver SIGINT]
                    ++ repeat RunMain 5 ++ [RunListener None])%list.

(** The process after a normal shutdown on SIGINT. *)
Definition p_shut_down : Proc := state_after x_ok (normal_schedule SIGINT).

(** A log configuration whose level zap does not know. *)
Definition bad_LogConfig : settings.LogConfig :=
  {| settings.Level := "verbose"; settings.Filename := "web_app.log";
     settings.MaxSize := 200; settings.MaxBackups := 7; settings.MaxAge := 30 |}.

(** A panic on a write to a connection the client has closed. *)
Definition broken_pipe_panic : PanicVal :=
  PanicError (OpError "write" "tcp" (Some "10.0.0.1:8081") (Some "10.0.0.7:52814")
                (SyscallError "write" (ErrorString "Broken pipe"))).

(** A panic with a nil [*net.OpError], as in
    [var ne *net.OpError; panic(ne)]. *)
Definition nil_OpError_panic : PanicVal := PanicError NilOpError.

(** A handler chain that panics with [v] at once. *)
Definition panics_with (v : PanicVal) : HandlerFunc := panic v.

Definition example_Context : Context :=
  {| c_Request := {| URL_Path := "/ping";
                     DumpRequest := "GET /ping HTTP/1.1" |};
     c_calls := [] |}.


(** ** More vocabulary: the connector, the middlewares *)

(** [sub] occurs somewhere in [s]. *)
Definition has_substring (s sub : string) : Prop :=
  exists a b, s = (a ++ sub ++ b)%string.

(** [n] calls of [mysql.Close] in a row. *)
Fixpoint Close_times (n : nat) : M World unit :=
  match n with
  | O => ret tt
  | S n' => mysql.Close ;; Close_times n'
  end.

(** ** gin: what the access logger reads and writes *)

(** The reads [GinLogger] makes on the context besides the path: gin and
    net/http compute them from [c]. *)
Record GinReads : Type := {
  URL_RawQuery : Context -> string;      (* c.Request.URL.RawQuery *)
  Request_Method : Context -> string;    (* c.Request.Method *)
  Request_UserAgent : Context -> string; (* c.Request.UserAgent() *)
  c_ClientIP : Context -> string;        (* c.ClientIP() *)
  Writer_Status : Context -> Z;          (* c.Writer.Status() *)
  Errors_private : Context -> string     (* c.Errors.ByType(gin.ErrorTypePrivate).String() *)
}.

(** Log fields of the access entry: those of [Field], and the integer and
    duration fields. *)
Inductive AccessField : Type :=
| zap_Field (f : Field)
| zap_Int (key : string) (n : Z)               (* zap.Int(key, n) *)
| zap_Duration (key : string) (d : Duration).  (* zap.Duration(key, d) *)

(** An entry written by [zap.L().Info(msg, fields...)] in [GinLogger]. *)
Record AccessEntry : Type := {
  ae_msg : string;
  ae_fields : list AccessField
}.

(** The state a request is served in: the world and the context, the clock
    that [time.Now()] reads (nanoseconds), and the access entries written so
    far (they carry fields that [Event] has no place for, and are kept
    apart). *)
Record Serving : Type := {
  sv_world : World;
  sv_c : Context;
  sv_clock : Z;
  sv_access : list AccessEntry
}.

(** A handler of the chain, seen from [GinLogger]. *)
Definition Handler : Type := M Serving unit.

(** A [HandlerFunc] as a handler: it works on the world and the context,
    and when it is done the clock has moved on by the time [took] that the
    run has taken. *)
Definition as_Handler (took : Duration) (h : HandlerFunc) : Handler :=
  fun s =>
    match h (sv_world s, sv_c s) with
    | (r, (w, c)) =>
        (r, {| sv_world := w; sv_c := c; sv_clock := sv_clock s + took;
               sv_access := sv_access s |})
    end.

Definition zap_L_Info (msg : string) (fields : list AccessField) : Handler :=
  modify (fun s => {| sv_world := sv_world s; sv_c := sv_c s;
                      sv_clock := sv_clock s;
                      sv_access := (sv_access s ++ [{| ae_msg := msg;
                                                       ae_fields := fields |}])%list |}).

(** [GinLogger()] is the handler below; [Next] is what [c.Next()] runs. *)
Definition GinLogger (g : GinReads) (Next : Handler) : Handler :=
  start <- gets sv_clock ;;                                   (* time.Now() *)
  path <- gets (fun s => URL_Path (c_Request (sv_c s))) ;;
  query <- gets (fun s => URL_RawQuery g (sv_c s)) ;;
  Next ;;
  now <- gets sv_clock ;;
  let cost := now - start in                                  (* time.Since(start) *)
  c <- gets sv_c ;;
  zap_L_Info path
    [zap_Int "status" (Writer_Status g c);
     zap_Field (zap_String "method" (Request_Method g c));
     zap_Field (zap_String "path" path);
     zap_Field (zap_String "query" query);
     zap_Field (zap_String "ip" (c_ClientIP g c));
     zap_Field (zap_String "user-agent" (Request_UserAgent g c));
     zap_Field (zap_String "errors" (Errors_private g c));
     zap_Duration "cost" cost].

(** The access entry for a request that arrived in state [s] and whose
    chain left state [s1]. *)
Definition access_entry (g : GinReads) (s s1 : Serving) : AccessEntry :=
  {| ae_msg := URL_Path (c_Request (sv_c s));
     ae_fields :=
       [zap_Int "status" (Writer_Status g (sv_c s1));
        zap_Field (zap_String "method" (Request_Method g (sv_c s1)));
        zap_Field (zap_String "path" (URL_Path (c_Request (sv_c s))));
        zap_Field (zap_String "query" (URL_RawQuery g (sv_c s)));
        zap_Field (zap_String "ip" (c_ClientIP g (sv_c s1)));
        zap_Field (zap_String "user-agent" (Request_UserAgent g (sv_c s1)));
        zap_Field (zap_String "errors" (Errors_private g (sv_c s1)));
        zap_Duration "cost" (sv_clock s1 - sv_clock s)] |}.

Definition logged (e : AccessEntry) (s : Serving) : Serving :=
  {| sv_world := sv_world s; sv_c := sv_c s; sv_clock := sv_clock s;
     sv_access := (sv_access s ++ [e])%list |}.


(** ** More vocabulary: the supervisor *)

(** The event a deferred call makes when it runs. *)
Definition ev_of (d : Deferred) : Event :=
  match d with
  | d_Sync => EvSync
  | d_mysql_Close => EvDBClose
  | d_redis_Close => EvRedisClose
  | d_cancel => EvCancel
  end.

Definition is_deferred_call (e : Event) : bool :=
  match e with
  | EvSync | EvDBClose | EvRedisClose | EvCancel => true
  | _ => false
  end.

(** The four deferred calls of [main], in the order a return runs them:
    the reverse of the order of the [defer] statements. *)
Definition all_deferred : list Event := [EvCancel; EvRedisClose; EvDBClose; EvSync].

(** The address given to the HTTP server at l.58. *)
Definition listen_addr (x : Extern) : string :=
  Sprintf ":%d" [AInt (viper_app_port x)].

(** An entry of [zap.L().Fatal] or of [log.Fatalf]. *)
Definition is_fatal_entry (e : Event) : bool :=
  match e with
  | EvZap FatalLevel _ _ | EvLogFatalf _ => true
  | _ => false
  end.

(** [settings.Conf] holds both sub-configurations. *)
Definition config_present (x : Extern) : Prop :=
  settings.LogConfig_ (settings_Conf x) <> None
  /\ settings.MySQLConfig_ (settings_Conf x) <> None.

Definition is_SettingsInit (e : Event) : bool :=
  match e with EvSettingsInit => true | _ => false end.
Definition is_ReplaceGlobals (e : Event) : bool :=
  match e with EvReplaceGlobals _ => true | _ => false end.
Definition is_SqlxConnect (e : Event) : bool :=
  match e with EvSqlxConnect _ _ => true | _ => false end.
Definition is_RedisInit (e : Event) : bool :=
  match e with EvRedisInit => true | _ => false end.
Definition is_Go (e : Event) : bool :=
  match e with EvGo => true | _ => false end.
Definition is_Shutdown (e : Event) : bool :=
  match e with EvShutdown _ => true | _ => false end.

(** Events of kind [f] are made by the statement at position [i] of [main]
    only: there is none before it, and never more than one. *)
Definition once_at (f : Event -> bool) (i : nat) (p : Proc) : Prop :=
  (count f (trace p) <= 1)%nat
  /\ (within 0 i (idx (pc p)) = true -> count f (trace p) = O).

(** A second invariant of the supervisor. *)
Record Inv2 (x : Extern) (p : Proc) : Prop := {
  i2_addr : forall s, srv p = Some s -> Addr s = listen_addr x;
  i2_las : forall a, In (EvListenAndServe a) (trace p) -> a = listen_addr x;
  i2_srv : listener p <> not_spawned -> srv p <> None;
  i2_panic : forall v, pc p = panicking v -> ~ config_present x;
  i2_crash : forall v, status p = Crashed v -> ~ config_present x;
  i2_quiet : within 0 20 (idx (pc p)) = true ->
    filter is_deferred_call (trace p) = [];
  i2_lifo : (exists d, In (EvShutdown d) (trace p)) ->
    (filter is_deferred_call (trace p) ++ map ev_of (defers p))%list = all_deferred;
  i2_called : (exists r, In (EvShutdownReturn r) (trace p)) ->
    exists d, In (EvShutdown d) (trace p);
  i2_in_Shutdown : within 18 19 (idx (pc p)) = true ->
    exists d, In (EvShutdown d) (trace p);
  i2_settings : once_at is_SettingsInit 0 p;
  i2_logger : once_at is_ReplaceGlobals 1 p;
  i2_connect : once_at is_SqlxConnect 4 p;
  i2_redis : once_at is_RedisInit 6 p;
  i2_go : once_at is_Go 10 p;
  i2_shutdown : once_at is_Shutdown 17 p;
  i2_redis_called : within 7 19 (idx (pc p)) = true -> In EvRedisInit (trace p);
  i2_redis_failed : within 20 22 (idx (pc p)) = true ->
    settings_ok x -> logger_ok x -> mysql_ok x -> In EvRedisInit (trace p);
  i2_db_owed : In EvRedisInit (trace p) ->
    (count is_DBClose (trace p) + pending is_d_mysql_Close (defers p) = 1)%nat;
  i2_db_ok :
    (1 <= count is_DBClose (trace p) + pending is_d_mysql_Close (defers p))%nat ->
    mysql_ok x;
  i2_rd_ok :
    (1 <= count is_RedisClose (trace p) + pending is_d_redis_Close (defers p))%nat ->
    redis_ok x;
  i2_notify : (exists sigs, In (EvNotify sigs) (trace p)) ->
    notified p = [SIGINT; SIGTERM];
  i2_unnotified : within 0 12 (idx (pc p)) = true -> notified p = [];
  i2_killed : forall s, status p = Killed s -> termination_signal s ->
    notified p = [];
  i2_code : forall c, status p = Exited c -> c = 0 \/ c = 1;
  i2_fatal : status p = Exited 1 ->
    exists t e, trace p = (t ++ [e])%list /\ is_fatal_entry e = true;
  i2_cap : (length (quit p) <= 1)%nat;
  i2_registered : notified p = [SIGINT; SIGTERM] ->
    exists sigs, In (EvNotify sigs) (trace p);
  i2_spawned : listener p <> not_spawned -> In EvGo (trace p);
  i2_fatal_ends : forall e, In e (trace p) -> is_fatal_entry e = true ->
    status p = Exited 1;
  i2_killed_by : forall s, status p = Killed s ->
    s = SIGHUP \/ s = SIGINT \/ s = SIGTERM \/ s = SIGKILL;
  i2_dumped : forall s, status p = Dumped s -> s = SIGQUIT
}.

(** ** More example runs *)

(** The cache refuses the connection. *)
Definition redis_refused : error :=
  ErrorString "dial tcp 127.0.0.1:6379: connect: connection refused".

Definition x_redis_down : Extern := example_extern None (Some redis_refused) None.

(** The process after [redis.Init] failed and [main] returned. *)
Definition p_redis_failed : Proc := state_after x_redis_down (repeat RunMain 11).


(** The configuration file has no section for the logger. *)
Definition x_no_LogConfig : Extern :=
  {| UnmarshalText := example_UnmarshalText;
     NewProductionEncoderConfig := NewProductionEncoderConfig x_ok;
     settings_Init := None;
     settings_Conf := {| settings.LogConfig_ := None;
                         settings.MySQLConfig_ := Some example_MySQLConfig |};
     viper_app_port := 8081;
     sqlx_Connect := fun _ _ => None;
     redis_Init := None;
     srv_Shutdown := fun _ => None;
     strings_ToLower := example_ToLower;
     debug_Stack := "goroutine 1 [running]" |}.

(** Two configurations that differ in where the colon of the credentials
    belongs. *)
Definition colon_in_user : settings.MySQLConfig :=
  {| settings.Host := "127.0.0.1"; settings.User := "app:x";
     settings.Password := "y"; settings.DbName := "web_app";
     settings.Port := 3306;
     settings.MaxOpenConns := 200; settings.MaxIdleConns := 50 |}.

Definition colon_in_password : settings.MySQLConfig :=
  {| settings.Host := "127.0.0.1"; settings.User := "app";
     settings.Password := "x:y"; settings.DbName := "web_app";
     settings.Port := 3306;
     settings.MaxOpenConns := 200; settings.MaxIdleConns := 50 |}.

(** ** The deferred calls on every path *)

(** The deferred calls that have run, followed by those still on the defer
    stack in the order in which they will run. *)
Definition deferred_log (p : Proc) : list Event :=
  (filter is_deferred_call (trace p) ++ map ev_of (defers p))%list.

(** A third invariant of the supervisor. *)
Record Inv3 (x : Extern) (p : Proc) : Prop := {
  i3_suffix : exists k, deferred_log p = skipn k all_deferred;
  i3_sync : within 3 22 (idx (pc p)) = true -> settings_ok x -> logger_ok x ->
    In EvSync (deferred_log p);
  i3_crashed : forall v, status p = Crashed v ->
    defers p = [] /\ pc p = panicking v
}.

(** * Theorems *)

Open Scope list_scope.

(** ** The connectors and the logger *)

Lemma Sprintf_dsn (cfg : settings.MySQLConfig) :
  Sprintf "%s:%s@tcp(%s:%d)/%s?charset=utf8mb4&parseTime=true"
    [AStr (settings.User cfg); AStr (settings.Password cfg);
     AStr (settings.Host cfg); AInt (settings.Port cfg);
     AStr (settings.DbName cfg)]
  = dsn_of cfg.
Proof.
  reflexivity.
Qed.

(** Normalising worlds built by [emit] and the setters. *)
Ltac world_simpl :=
  unfold emit, set_db, set_zap_global; cbn [zap_global db out];
  rewrite <- ?app_assoc; cbn [app].

(** What [mysql.Init] does on a configuration, by the outcome of
    [sqlx.Connect]. *)
Lemma mysql_Init_connected (x : Extern) (cfg : settings.MySQLConfig) (w : World) :
  sqlx_Connect x "mysql" (dsn_of cfg) = None ->
  mysql.Init x (Some cfg) w =
    (Val None,
     {| zap_global := zap_global w;
        db := Some (sql_SetMaxIdleConns (settings.MaxIdleConns cfg)
                      (sql_SetMaxOpenConns (settings.MaxOpenConns cfg)
                         {| driverName := "mysql"; dataSourceName := dsn_of cfg;
                            maxOpen := 0; maxIdleCount := 0 |}));
        out := out w ++ [EvSqlxConnect "mysql" (dsn_of cfg);
                         EvSetMaxOpenConns (settings.MaxOpenConns cfg);
                         EvSetMaxIdleConns (settings.MaxIdleConns cfg)] |}).
Proof.
  intros Hc. unfold mysql.Init, mysql.Connect, bind, deref, ret, modify.
  rewrite Sprintf_dsn, Hc.
  unfold mysql.SetMaxOpenConns, mysql.SetMaxIdleConns, bind, gets, deref, ret,
    modify.
  cbn. world_simpl. reflexivity.
Qed.

Ltac bool_cases :=
  repeat match goal with
         | |- context [if ?b then _ else _] =>
             let H := fresh "H" in
             destruct b eqn:H;
             cbn [maxOpen maxIdleCount driverName dataSourceName andb] in *
         | H' : context [if ?b then _ else _] |- _ =>
             let H := fresh "H" in
             destruct b eqn:H;
             cbn [maxOpen maxIdleCount driverName dataSourceName andb] in *
         end;
  rewrite ?andb_true_iff, ?andb_false_iff, ?Z.ltb_lt, ?Z.ltb_ge, ?Z.leb_le,
    ?Z.leb_gt, ?Z.eqb_eq, ?Z.eqb_neq in *.

(** database/sql: [SetMaxIdleConns] leaves the limit of open connections
    as it is and never sets the idle limit above it. *)
Lemma sql_SetMaxIdleConns_spec (n : Z) (d : DB) :
  driverName (sql_SetMaxIdleConns n d) = driverName d
  /\ dataSourceName (sql_SetMaxIdleConns n d) = dataSourceName d
  /\ maxOpen (sql_SetMaxIdleConns n d) = maxOpen d
  /\ maxIdleCount (sql_SetMaxIdleConns n d) =
       (if n <=? 0 then -1
        else if (0 <? maxOpen d) && (maxOpen d <? n) then maxOpen d
        else n).
Proof.
  unfold sql_SetMaxIdleConns, maxIdleConnsLocked, defaultMaxIdleConns,
    with_maxIdleCount.
  cbn [maxOpen maxIdleCount driverName dataSourceName].
  bool_cases; repeat split; try reflexivity; lia.
Qed.

(** database/sql: [SetMaxOpenConns] turns a negative limit into none. *)
Lemma sql_SetMaxOpenConns_spec (n : Z) (d : DB) :
  driverName (sql_SetMaxOpenConns n d) = driverName d
  /\ dataSourceName (sql_SetMaxOpenConns n d) = dataSourceName d
  /\ maxOpen (sql_SetMaxOpenConns n d) = Z.max 0 n.
Proof.
  unfold sql_SetMaxOpenConns.
  set (d1 := if n <? 0 then with_maxOpen 0 (with_maxOpen n d) else with_maxOpen n d).
  assert (H1 : driverName d1 = driverName d /\ dataSourceName d1 = dataSourceName d
               /\ maxOpen d1 = Z.max 0 n).
  { unfold d1, with_maxOpen. destruct (n <? 0) eqn:Hn; cbn;
      [apply Z.ltb_lt in Hn | apply Z.ltb_ge in Hn]; repeat split; lia. }
  destruct H1 as (Hdr & Hds & Ho).
  destruct ((0 <? maxOpen d1) && (maxOpen d1 <? maxIdleConnsLocked d1)).
  - destruct (sql_SetMaxIdleConns_spec n d1) as (Hdr' & Hds' & Ho' & _).
    rewrite Hdr', Hds', Ho'. auto.
  - auto.
Qed.

(** The two calls of [mysql.Init] on a fresh handle leave the driver and
    the data source name, and these limits. *)
Lemma fresh_pool_limits (driver dsn : string) (o i : Z) :
  let d := sql_SetMaxIdleConns i
             (sql_SetMaxOpenConns o
                {| driverName := driver; dataSourceName := dsn;
                   maxOpen := 0; maxIdleCount := 0 |}) in
  driverName d = driver /\ dataSourceName d = dsn
  /\ maxOpen d = Z.max 0 o
  /\ maxIdleCount d =
       (if i <=? 0 then -1
        else if (0 <? o) && (o <? i) then o
        else i).
Proof.
  cbv zeta.
  set (d0 := {| driverName := driver; dataSourceName := dsn;
                maxOpen := 0; maxIdleCount := 0 |}).
  destruct (sql_SetMaxOpenConns_spec o d0) as (Hdr & Hds & Ho).
  destruct (sql_SetMaxIdleConns_spec i (sql_SetMaxOpenConns o d0))
    as (Hdr' & Hds' & Ho' & Hi').
  rewrite Hdr', Hds', Ho', Hi', Hdr, Hds, Ho. cbn [d0 driverName dataSourceName].
  repeat split.
  bool_cases; lia.
Qed.

Lemma mysql_Init_refused (x : Extern) (cfg : settings.MySQLConfig) (w : World)
    (e : error) :
  sqlx_Connect x "mysql" (dsn_of cfg) = Some e ->
  mysql.Init x (Some cfg) w =
    (Val (Some e),
     {| zap_global := zap_global w;
        db := None;
        out := out w ++ [EvSqlxConnect "mysql" (dsn_of cfg);
                         EvZap ErrorLevel "connect to DB failed" [zap_Error e]] |}).
Proof.
  intros Hc. unfold mysql.Init, mysql.Connect, bind, deref, ret, modify.
  rewrite Sprintf_dsn, Hc. cbn. world_simpl. reflexivity.
Qed.

Lemma mysql_Init_nil (x : Extern) (w : World) :
  mysql.Init x None w = (Panic nil_dereference, w).
Proof. reflexivity. Qed.

(** C7: [mysql.Init] opens the data source named by the configured user,
    password, host, port and database name and by nothing else.  When the
    connection succeeds it calls [db.SetMaxOpenConns] and
    [db.SetMaxIdleConns] with the configured values and returns nil; the
    pool then has the limits that database/sql makes of these values: a
    negative maximum of open connections means no limit, a non-positive
    maximum of idle connections means none, and the idle limit is at most
    the open one; with [0 < MaxIdleConns <= MaxOpenConns] the limits are
    the configured values.  When the connection fails it returns the error,
    holds no handle and has set no pool limit. *)
Theorem mysql_Init_spec (x : Extern) (cfg : settings.MySQLConfig) (w : World) :
  let dsn :=
    (settings.User cfg ++ ":" ++ settings.Password cfg ++ "@tcp(" ++
     settings.Host cfg ++ ":" ++ itoa (settings.Port cfg) ++ ")/" ++
     settings.DbName cfg ++ "?charset=utf8mb4&parseTime=true")%string in
  (sqlx_Connect x "mysql" dsn = None ->
     exists w' d,
       mysql.Init x (Some cfg) w = (Val None, w')
       /\ db w' = Some d
       /\ driverName d = "mysql" /\ dataSourceName d = dsn
       /\ out w' = out w ++ [EvSqlxConnect "mysql" dsn;
                             EvSetMaxOpenConns (settings.MaxOpenConns cfg);
                             EvSetMaxIdleConns (settings.MaxIdleConns cfg)]
       /\ maxOpen d = Z.max 0 (settings.MaxOpenConns cfg)
       /\ maxIdleCount d =
            (if settings.MaxIdleConns cfg <=? 0 then -1
             else if (0 <? settings.MaxOpenConns cfg)
                     && (settings.MaxOpenConns cfg <? settings.MaxIdleConns cfg)
                  then settings.MaxOpenConns cfg
                  else settings.MaxIdleConns cfg)
       /\ (0 < settings.MaxIdleConns cfg <= settings.MaxOpenConns cfg ->
           maxOpen d = settings.MaxOpenConns cfg
           /\ maxIdleCount d = settings.MaxIdleConns cfg))
  /\ (forall e, sqlx_Connect x "mysql" dsn = Some e ->
       exists w',
         mysql.Init x (Some cfg) w = (Val (Some e), w')
         /\ db w' = None
         /\ out w' = out w ++ [EvSqlxConnect "mysql" dsn;
                               EvZap ErrorLevel "connect to DB failed"
                                 [zap_Error e]]).
Proof.
  cbv zeta. change (_ ++ _)%string with (dsn_of cfg). split.
  - intros Hc. rewrite (mysql_Init_connected _ _ _ Hc).
    destruct (fresh_pool_limits "mysql" (dsn_of cfg) (settings.MaxOpenConns cfg)
                (settings.MaxIdleConns cfg)) as (Hdr & Hds & Ho & Hi).
    eexists. eexists. split; [reflexivity|]. cbn [db out].
    split; [reflexivity|]. split; [exact Hdr|]. split; [exact Hds|].
    split; [reflexivity|]. split; [exact Ho|]. split; [exact Hi|].
    intros [Hpos Hle]. rewrite Ho, Hi. split; [lia|].
    destruct (settings.MaxIdleConns cfg <=? 0) eqn:H1;
      [apply Z.leb_le in H1; lia|].
    destruct ((0 <? settings.MaxOpenConns cfg)
              && (settings.MaxOpenConns cfg <? settings.MaxIdleConns cfg)) eqn:H2;
      [|reflexivity].
    apply andb_true_iff in H2. destruct H2 as [_ H2]. apply Z.ltb_lt in H2. lia.
  - intros e Hc. rewrite (mysql_Init_refused _ _ _ Hc).
    eexists. split; [reflexivity|]. cbn. auto.
Qed.

(** The handle is non-nil after [mysql.Init] exactly when it returned nil. *)
Lemma mysql_Init_handle (x : Extern) (cfg : option settings.MySQLConfig)
    (w w' : World) (r : Res err_result) :
  mysql.Init x cfg w = (r, w') ->
  cfg <> None ->
  (db w' <> None <-> r = Val None).
Proof.
  intros H Hcfg. destruct cfg as [cfg|]; [clear Hcfg|congruence].
  destruct (sqlx_Connect x "mysql" (dsn_of cfg)) as [e|] eqn:Hc.
  - rewrite (mysql_Init_refused _ _ _ Hc) in H. inversion H; subst; cbn.
    split; intros; congruence.
  - rewrite (mysql_Init_connected _ _ _ Hc) in H. inversion H; subst; cbn.
    split; intros; congruence.
Qed.

(** C8: [mysql.Close] on a nil handle panics with a nil dereference and
    does nothing else; on a handle it calls [db.Close()] and returns.  The
    handle is nil in the initial world, and after a call of [mysql.Init] it
    is non-nil exactly when that call returned nil. *)
Theorem mysql_Close_needs_Init (w : World) :
  (db w = None -> mysql.Close w = (Panic nil_dereference, w))
  /\ (forall d, db w = Some d -> mysql.Close w = (Val tt, emit EvDBClose w))
  /\ db world0 = None
  /\ (forall x cfg r w', mysql.Init x (Some cfg) w = (r, w') ->
        (db w' <> None <-> r = Val None)).
Proof.
  split; [|split; [|split]].
  - intros H. unfold mysql.Close, bind, gets, deref. rewrite H. reflexivity.
  - intros d H. unfold mysql.Close, bind, gets, deref. rewrite H. reflexivity.
  - reflexivity.
  - intros x cfg r w' H. eapply mysql_Init_handle; [exact H | discriminate].
Qed.

Lemma logger_Init_parsed (x : Extern) (cfg : settings.LogConfig) (w : World)
    (lvl : ZapLevel) :
  UnmarshalText x (settings.Level cfg) = Ok lvl ->
  logger.Init x (Some cfg) w =
    (Val None,
     {| zap_global := Some (logger_of x cfg lvl);
        db := db w;
        out := out w ++ [EvReplaceGlobals (logger_of x cfg lvl)] |}).
Proof.
  intros H. unfold logger.Init, bind, deref, ret. rewrite H. reflexivity.
Qed.

Lemma logger_Init_unparsed (x : Extern) (cfg : settings.LogConfig) (w : World)
    (e : error) :
  UnmarshalText x (settings.Level cfg) = Failed e ->
  logger.Init x (Some cfg) w = (Val (Some e), w).
Proof.
  intros H. unfold logger.Init, bind, deref, ret. rewrite H. reflexivity.
Qed.

Lemma logger_Init_nil (x : Extern) (w : World) :
  logger.Init x None w = (Panic nil_dereference, w).
Proof. reflexivity. Qed.

(** C10: [logger.Init] returns an error exactly when the configured level
    string does not parse, and the error is the parser's; it then leaves
    the global logger as it was.  When the level parses, it returns nil and
    has installed, as zap's global logger, the logger with the JSON
    encoder, the rotating writer built from the configured file name and
    limits, and the parsed level. *)
Theorem logger_Init_spec (x : Extern) (cfg : settings.LogConfig) (w : World) :
  (forall e, fst (logger.Init x (Some cfg) w) = Val (Some e)
             <-> UnmarshalText x (settings.Level cfg) = Failed e)
  /\ (forall e, UnmarshalText x (settings.Level cfg) = Failed e ->
        snd (logger.Init x (Some cfg) w) = w)
  /\ (forall lvl, UnmarshalText x (settings.Level cfg) = Ok lvl ->
        exists w',
          logger.Init x (Some cfg) w = (Val None, w')
          /\ zap_global w' = Some (logger_of x cfg lvl)
          /\ (exists ec, core_enc (logger_of x cfg lvl) = JSONEncoder ec)
          /\ core_ws (logger_of x cfg lvl) =
               AddSync {| lj_Filename := settings.Filename cfg;
                          lj_MaxSize := settings.MaxSize cfg;
                          lj_MaxBackups := settings.MaxBackups cfg;
                          lj_MaxAge := settings.MaxAge cfg |}
          /\ out w' = out w ++ [EvReplaceGlobals (logger_of x cfg lvl)]).
Proof.
  split; [|split].
  - intros e.
    destruct (UnmarshalText x (settings.Level cfg)) as [lvl|e'] eqn:Hu.
    + rewrite (logger_Init_parsed _ _ _ Hu). cbn. split; congruence.
    + rewrite (logger_Init_unparsed _ _ _ Hu). cbn. split; congruence.
  - intros e Hu. rewrite (logger_Init_unparsed _ _ _ Hu). reflexivity.
  - intros lvl Hu. rewrite (logger_Init_parsed _ _ _ Hu).
    eexists. split; [reflexivity|]. cbn.
    split; [reflexivity|]. split; [eexists; reflexivity|]. split; reflexivity.
Qed.

(** The outcome of the two initialisers does not depend on the world they
    are called in. *)
Lemma logger_Init_outcome (x : Extern) (cfg : option settings.LogConfig)
    (w w' : World) :
  fst (logger.Init x cfg w) = fst (logger.Init x cfg w').
Proof.
  destruct cfg as [cfg|]; [|reflexivity].
  destruct (UnmarshalText x (settings.Level cfg)) as [lvl|e] eqn:Hu.
  - rewrite !(logger_Init_parsed _ _ _ Hu). reflexivity.
  - rewrite !(logger_Init_unparsed _ _ _ Hu). reflexivity.
Qed.

Lemma mysql_Init_outcome (x : Extern) (cfg : option settings.MySQLConfig)
    (w w' : World) :
  fst (mysql.Init x cfg w) = fst (mysql.Init x cfg w').
Proof.
  destruct cfg as [cfg|]; [|reflexivity].
  destruct (sqlx_Connect x "mysql" (dsn_of cfg)) as [e|] eqn:Hc.
  - rewrite !(mysql_Init_refused _ _ _ Hc). reflexivity.
  - rewrite !(mysql_Init_connected _ _ _ Hc). reflexivity.
Qed.

(** ** The recovery middleware *)

Lemma brokenPipe_is_error (x : Extern) (v : PanicVal) :
  logger.brokenPipe x v = true ->
  exists op net src addr sc e,
    v = PanicError (OpError op net src addr (SyscallError sc e)).
Proof.
  destruct v as [e|r|op net src addr raised|r]; try discriminate.
  destruct e as [| | | | |op net src addr ne|]; try discriminate.
  destruct ne; try discriminate. eauto 7.
Qed.

(** What [GinRecovery] does, by what the rest of the chain does.  When the
    chain returns, the middleware adds nothing.  When it panics with [v],
    the deferred closure tests [v]: on a nil [*net.OpError], and on a
    [*net.OpError] over an [*os.SyscallError] whose [Error] method panics,
    the test itself panics and the closure is left with nothing logged and
    nothing done on [c].  On every other [v] the middleware returns
    normally: if [v] is no broken pipe or connection reset it has logged
    the recovery entry at error level and called [c.AbortWithStatus(500)];
    if it is one, it has logged the error, recorded it with [c.Error] and
    called [c.Abort()], and has written no status. *)
Theorem GinRecovery_spec (x : Extern) (stack : bool) (Next : HandlerFunc)
    (s : World * Context) :
  match Next s with
  | (Val tt, s1) => logger.GinRecovery x stack Next s = (Val tt, s1)
  | (Panic v, (w1, c1)) =>
      match v with
      | PanicError NilOpError =>
          logger.GinRecovery x stack Next s = (Panic nil_dereference, (w1, c1))
      | PanicFaultyOpError _ _ _ _ raised =>
          logger.GinRecovery x stack Next s = (Panic raised, (w1, c1))
      | _ =>
          if logger.brokenPipe x v then
            logger.GinRecovery x stack Next s =
              (Val tt, (emit (broken_pipe_entry v (c_Request c1)) w1,
                        with_calls c1 [c_Error v; c_Abort]))
          else
            logger.GinRecovery x stack Next s =
              (Val tt, (emit (recovery_entry x stack v (c_Request c1)) w1,
                        with_calls c1 [c_AbortWithStatus 500]))
      end
  end.
Proof.
  unfold logger.GinRecovery, defer_recover.
  destruct (Next s) as [[[]|v] [w1 c1]]; [reflexivity|].
  destruct v as [e|r|op net src addr raised|r]; [destruct e| | |];
    try reflexivity;
    match goal with
    | |- if logger.brokenPipe x ?V then _ else _ =>
        change (@logger.brokenPipe_test (World * Context) x V)
          with (@ret (World * Context) bool (logger.brokenPipe x V));
        destruct (logger.brokenPipe x V) eqn:Hb; [|destruct stack];
        try discriminate Hb;
        unfold bind, ret, gets, in_world, on_c, modify, assert_error, with_calls,
          broken_pipe_entry, recovery_entry;
        cbn; rewrite <- ?app_assoc; reflexivity
    end.
Qed.

(** C9, on the code: a handler panics with a nil [*net.OpError].  The
    deferred closure of [GinRecovery] recovers the value, and its test for
    a broken connection reads [ne.Err] through the nil pointer: the closure
    panics with a nil dereference.  The middleware does not return: the new
    panic leaves it, nothing has been logged, and neither
    [c.AbortWithStatus(500)] nor any other call has been made on [c]. *)
Theorem GinRecovery_panics_on_nil_OpError :
  logger.GinRecovery x_ok true (panics_with nil_OpError_panic)
    (world0, example_Context)
  = (Panic nil_dereference, (world0, example_Context))
  /\ logger.GinRecovery x_ok false (panics_with nil_OpError_panic)
       (world0, example_Context)
     = (Panic nil_dereference, (world0, example_Context))
  /\ logger.brokenPipe x_ok nil_OpError_panic = false.
Proof. repeat split. Qed.

(** ** Lists of events *)

Lemma count_app (f : Event -> bool) (t1 t2 : list Event) :
  count f (t1 ++ t2) = (count f t1 + count f t2)%nat.
Proof. unfold count. rewrite filter_app, length_app. reflexivity. Qed.

Lemma count_zero_not_in (f : Event -> bool) (t : list Event) (e : Event) :
  count f t = O -> In e t -> f e = false.
Proof.
  unfold count. intros Hc Hin.
  destruct (f e) eqn:Hf; [|reflexivity].
  assert (Hin' : In e (filter f t)) by (apply filter_In; auto).
  destruct (filter f t); [contradiction | discriminate].
Qed.

Lemma all_after_app (a : Event) (f : Event -> bool) (t l : list Event) :
  all_after a f t ->
  (forall e, In e l -> f e = true -> In a t) ->
  all_after a f (t ++ l).
Proof.
  intros Ht Hl l1 e l2 Heq Hf.
  apply app_eq_app in Heq. destruct Heq as [m [[Ht' Hm] | [Hl1 Hm]]].
  - destruct m as [|e' m]; cbn in Hm.
    + rewrite app_nil_r in Ht'. subst l1. apply (Hl e); [|exact Hf].
      rewrite <- Hm. left. reflexivity.
    + inversion Hm; subst e' l2. apply (Ht l1 e m Ht' Hf).
  - subst l1. apply in_or_app. left. apply (Hl e); [|exact Hf].
    rewrite Hm. apply in_or_app. right. left. reflexivity.
Qed.

Lemma shutdown_after_receipt_app (t l : list Event) :
  shutdown_after_receipt t ->
  (forall d, In (EvShutdown d) l ->
     exists s, termination_signal s /\ In (EvRecv s) t) ->
  shutdown_after_receipt (t ++ l).
Proof.
  intros Ht Hl l1 d l2 Heq.
  apply app_eq_app in Heq. destruct Heq as [m [[Ht' Hm] | [Hl1 Hm]]].
  - destruct m as [|e' m]; cbn in Hm.
    + rewrite app_nil_r in Ht'. subst l1. apply (Hl d).
      rewrite <- Hm. left. reflexivity.
    + inversion Hm; subst e' l2. apply (Ht l1 d m Ht').
  - subst l1. destruct (Hl d) as [s [Hs Hin]].
    + rewrite Hm. apply in_or_app. right. left. reflexivity.
    + exists s. split; [exact Hs|]. apply in_or_app. left. exact Hin.
Qed.

Lemma all_after_nil (a : Event) (f : Event -> bool) : all_after a f [].
Proof. intros l1 e l2 H. destruct l1; discriminate H. Qed.

Lemma shutdown_after_receipt_nil : shutdown_after_receipt [].
Proof. intros l1 d l2 H. destruct l1; discriminate H. Qed.

Lemma all_after_quiet (a : Event) (t : list Event) :
  count is_DBClose t = O -> count is_RedisClose t = O ->
  all_after a is_teardown t.
Proof.
  intros Hd Hr l1 e l2 -> Hf.
  assert (Hin : In e (l1 ++ e :: l2)) by (apply in_or_app; right; left; reflexivity).
  unfold is_teardown in Hf.
  rewrite (count_zero_not_in _ _ _ Hd Hin), (count_zero_not_in _ _ _ Hr Hin) in Hf.
  discriminate Hf.
Qed.

(** ** The invariant holds in every reachable state *)

Lemma Inv_init (x : Extern) : Inv x init.
Proof.
  constructor; cbn; try tauto; try (intros; discriminate); try (intros; congruence);
    try lia; auto.
  - apply shutdown_after_receipt_nil.
  - unfold listener_started. cbn. intros [H|[H|[H|[a H]]]]; try congruence; contradiction.
  - intros [r H]. contradiction.
Qed.

Ltac use_inv HI :=
  destruct HI as [Hq Hns Hnsrv Hsrv Hgone Hspw Hstk Hset Hlog Hmy Hrd Hhd Hnot Hrcv Hctx
                  Hunw Honce Howed Hdb Hex0 Hfail Hrtn Haft Hrec Hdl Hrcvs Hquit Hreg
                  HNot Hstart HFat Hret].

Ltac prune :=
  repeat match goal with
  | H : true = true -> _ |- _ => specialize (H eq_refl)
  | H : false = true -> _ |- _ => clear H
  | H : forall ds, Some _ = Some ds -> _ |- _ => specialize (H _ eq_refl)
  | H : forall ds, None = Some ds -> _ |- _ => clear H
  | H : _ /\ _ |- _ => destruct H
  | H : exists _, _ |- _ => destruct H
  end.

Lemma in_app_l (e : Event) (t l : list Event) : In e t -> In e (t ++ l).
Proof. intros H. apply in_or_app. left. exact H. Qed.

Lemma in_app_last (e : Event) (t : list Event) : In e (t ++ [e]).
Proof. apply in_or_app. right. left. reflexivity. Qed.

Create HintDb sup.
#[local] Hint Resolve in_app_l in_app_last : sup.
#[local] Hint Unfold termination_signal : sup.

Ltac break :=
  repeat match goal with
  | H : _ /\ _ |- _ => destruct H
  | H : exists _, _ |- _ => destruct H
  | H : False |- _ => contradiction
  | H : _ \/ False |- _ => destruct H as [H|[]]
  | H : In _ _ \/ _ |- _ => destruct H
  | H : (_ -> False) \/ _ |- _ => destruct H
  | H : _ = _ \/ _ \/ _ |- _ => destruct H
  | H : Some _ = Some _ |- _ => injection H as H; try subst
  | H : _ = _ |- _ => discriminate H
  | H : true = true -> _ |- _ => specialize (H eq_refl)
  | H : ?A -> _, H' : ?A |- _ =>
      match type of A with Prop => specialize (H H') end
  | H : In (EvLogFatalf ?t) ?T, Hq : forall t, ~ In (EvLogFatalf t) ?T |- _ =>
      destruct (Hq t H)
  | H : In (EvShutdownReturn (Some ?e)) ?T,
    Hf : forall e, In (EvShutdownReturn (Some e)) ?T -> _ |- _ =>
      specialize (Hf e H)
  | H : In (EvListenAndServe ?a) ?T,
    Hf : forall a, ~ In (EvListenAndServe a) ?T |- _ =>
      destruct (Hf a H)
  end.

Ltac norm :=
  rewrite ?in_app_iff, ?count_app in *;
  unfold count, pending in *;
  rewrite ?filter_app, ?length_app in *;
  cbn -[all_after shutdown_after_receipt] in *.

Ltac use_stack :=
  repeat match goal with
  | H : defers ?p = _ |- context [defers ?p] => rewrite H
  end.

Ltac leaf :=
  solve [ assumption | discriminate | congruence | lia
        | eauto 6 with sup
        | exfalso; eauto 3
        | apply all_after_quiet; assumption
        | split; solve [ assumption | congruence | lia | eauto 6 with sup ]
        | tauto
        | intuition (try congruence; try lia; eauto 6 with sup;
                     try solve [exfalso; eauto 3]) ].

Ltac crush1 :=
  unfold trace, listener_started, all_ok, not;
  cbn -[count pending all_after shutdown_after_receipt];
  try match goal with
      | H : pc ?p = _ |- context [pc ?p] =>
          rewrite H; cbn -[count pending all_after shutdown_after_receipt]
      end;
  use_stack; intros;
  break; norm; break; norm; break;
  try match goal with
  | |- all_after _ _ (_ ++ _) =>
      apply all_after_app;
      [ | let e := fresh "e" in let Hin := fresh "Hin" in let Hf := fresh "Hf" in
          intros e Hin Hf; cbn in Hin; intuition (subst; try discriminate) ]
  | |- shutdown_after_receipt (_ ++ _) =>
      apply shutdown_after_receipt_app;
      [ | let d := fresh "d" in let Hin := fresh "Hin" in
          intros d Hin; cbn in Hin; intuition (try discriminate) ]
  end;
  try leaf.

Ltac crush :=
  crush1;
  try (repeat match goal with |- _ /\ _ => split end; crush1).

Lemma termination_signal_notified (s : Signal) (sigs : list Signal) :
  sigs = [] \/ sigs = [SIGINT; SIGTERM] ->
  existsb (Signal_eqb s) sigs = true -> termination_signal s.
Proof.
  intros [-> | ->]; cbn; [discriminate|].
  unfold termination_signal. destruct s; cbn; intros H; try discriminate H; auto.
Qed.

Lemma deliver_Inv (x : Extern) (s : Signal) (p : Proc) :
  Inv x p -> status p = Running -> Inv x (deliver s p).
Proof.
  intros HI Hrun. unfold deliver.
  destruct (existsb (Signal_eqb s) (notified p)) eqn:Hreg'.
  - destruct (length (quit p) <? 1)%nat; [|exact HI].
    pose proof (termination_signal_notified s (inv_registered HI) Hreg') as Hs.
    use_inv HI. constructor; try assumption.
    cbn. apply Forall_app. split; [assumption|]. constructor; [assumption|constructor].
  - destruct (default_disposition s); [ | | exact HI];
      use_inv HI; constructor; try assumption; cbn;
      try (intros H; discriminate H);
      intros t Ht; destruct (HFat t Ht) as [H _]; congruence.
Qed.

Lemma listener_step_Inv (x : Extern) (fail : option error) (p p' : Proc) :
  Inv x p -> status p = Running -> listener_step fail p = Some p' -> Inv x p'.
Proof.
  intros HI Hrun Hstep. unfold listener_step in Hstep.
  assert (Hquietlog : forall t, ~ In (EvLogFatalf t) (trace p)).
  { intros t Ht. destruct (inv_Fatalf HI t Ht) as [H _]. congruence. }
  destruct (listener p) eqn:Hl; try discriminate Hstep.
  - (* spawned: srv.ListenAndServe() is called *)
    assert (Hok : all_ok x).
    { apply (inv_started HI). right. left. congruence. }
    destruct (srv p) as [s|] eqn:Hs.
    + assert (exists l, p' = set_listener l (say (EvListenAndServe (Addr s)) p)
                        /\ l <> not_spawned) as [l [-> Hl']].
      { destruct (inShutdown s); [|destruct fail]; inversion Hstep; eexists; split;
          try reflexivity; discriminate. }
      clear Hstep. use_inv HI. unfold trace, listener_started in *.
      constructor; crush.
    + inversion Hstep; subst p'; clear Hstep.
      use_inv HI. unfold trace, listener_started in *.
      constructor; crush.
  - (* serving *)
    assert (Hok : all_ok x).
    { apply (inv_started HI). right. left. congruence. }
    destruct (srv p) as [s|] eqn:Hs.
    + assert (exists l, p' = set_listener l p /\ l <> not_spawned) as [l [-> Hl']].
      { destruct (inShutdown s); [|destruct fail]; inversion Hstep; eexists; split;
          try reflexivity; discriminate. }
      clear Hstep. use_inv HI. unfold trace, listener_started in *.
      constructor; crush.
    + inversion Hstep; subst p'; clear Hstep.
      use_inv HI. unfold trace, listener_started in *.
      constructor; crush.
  - (* returned err *)
    assert (Hok : all_ok x).
    { apply (inv_started HI). right. left. congruence. }
    destruct (is_ErrServerClosed err) eqn:Herr; cbn in Hstep;
      inversion Hstep; subst p'; clear Hstep;
      use_inv HI; unfold trace, listener_started in *;
      constructor; crush.
    exists err. split; [assumption|]. split; [assumption|].
    match goal with H : EvLogFatalf _ = EvLogFatalf _ |- _ => injection H as <- end.
    reflexivity.
Qed.

(** Bringing the facts of the invariant that hold at the current program
    point into the context. *)
Ltac at_pc HI Hpc :=
  use_inv HI; unfold trace, listener_started, all_ok in *;
  rewrite Hpc in *;
  cbn [idx within stack_at ctx_of Nat.leb andb orb] in *;
  prune;
  repeat match goal with
  | H : defers ?p = _, H' : context [defers ?p] |- _ =>
      lazymatch H' with H => fail | _ => rewrite H in H' end
  end.

Lemma main_step_Inv (x : Extern) (p p' : Proc) :
  Inv x p -> status p = Running -> main_step x p = Some p' -> Inv x p'.
Proof.
  intros HI Hrun Hstep. unfold main_step in Hstep.
  assert (Hquietlog : forall t, ~ In (EvLogFatalf t) (trace p)).
  { intros t Ht. destruct (inv_Fatalf HI t Ht) as [H _]. congruence. }
  destruct (pc p) eqn:Hpc.
  - (* settings.Init() *)
    destruct (settings_Init x) as [e|] eqn:Hsi; cbn in Hstep;
      inversion Hstep; subst p'; clear Hstep;
      at_pc HI Hpc; constructor; crush.
  - (* logger.Init *)
    unfold call in Hstep.
    destruct (settings.LogConfig_ (settings_Conf x)) as [cfg|] eqn:Hcfg.
    + destruct (UnmarshalText x (settings.Level cfg)) as [lvl|e] eqn:Hu.
      * assert (Hlok : logger_ok x).
        { unfold logger_ok, returns. rewrite Hcfg, (logger_Init_parsed _ _ _ Hu).
          reflexivity. }
        rewrite (logger_Init_parsed _ _ _ Hu) in Hstep. cbn in Hstep.
        inversion Hstep; subst p'; clear Hstep.
        at_pc HI Hpc; constructor; crush.
      * rewrite (logger_Init_unparsed _ _ _ Hu) in Hstep. cbn in Hstep.
        inversion Hstep; subst p'; clear Hstep.
        at_pc HI Hpc; constructor; crush.
    + rewrite logger_Init_nil in Hstep. cbn in Hstep.
      inversion Hstep; subst p'; clear Hstep.
      at_pc HI Hpc; constructor; crush.
  - (* defer zap.L().Sync() *)
    inversion Hstep; subst p'; clear Hstep.
    at_pc HI Hpc; constructor; crush.
  - (* zap.L().Debug *)
    cbn in Hstep. inversion Hstep; subst p'; clear Hstep.
    at_pc HI Hpc; constructor; crush.
  - (* mysql.Init *)
    unfold call in Hstep.
    destruct (settings.MySQLConfig_ (settings_Conf x)) as [cfg|] eqn:Hcfg.
    + destruct (sqlx_Connect x "mysql" (dsn_of cfg)) as [e|] eqn:Hc.
      * rewrite (mysql_Init_refused _ _ _ Hc) in Hstep. cbn in Hstep.
        inversion Hstep; subst p'; clear Hstep.
        at_pc HI Hpc; constructor; crush.
      * assert (Hmok : mysql_ok x).
        { unfold mysql_ok, returns. rewrite Hcfg, (mysql_Init_connected _ _ _ Hc).
          reflexivity. }
        rewrite (mysql_Init_connected _ _ _ Hc) in Hstep. cbn in Hstep.
        inversion Hstep; subst p'; clear Hstep.
        at_pc HI Hpc; constructor; crush.
    + rewrite mysql_Init_nil in Hstep. cbn in Hstep.
      inversion Hstep; subst p'; clear Hstep.
      at_pc HI Hpc; constructor; crush.
  - (* defer mysql.Close() *)
    inversion Hstep; subst p'; clear Hstep.
    at_pc HI Hpc; constructor; crush.
  - (* redis.Init() *)
    destruct (redis_Init x) as [e|] eqn:Hri; cbn in Hstep;
      inversion Hstep; subst p'; clear Hstep;
      at_pc HI Hpc; constructor; crush.
  - (* defer redis.Close() *)
    inversion Hstep; subst p'; clear Hstep.
    at_pc HI Hpc; constructor; crush.
  - (* routes.Setup() *)
    inversion Hstep; subst p'; clear Hstep.
    at_pc HI Hpc; constructor; crush.
  - (* &http.Server{...} *)
    inversion Hstep; subst p'; clear Hstep.
    at_pc HI Hpc; constructor; crush.
  - (* go func() *)
    inversion Hstep; subst p'; clear Hstep.
    at_pc HI Hpc; constructor; crush.
  - (* quit := make(chan os.Signal, 1) *)
    inversion Hstep; subst p'; clear Hstep.
    at_pc HI Hpc; constructor; crush.
  - (* signal.Notify *)
    inversion Hstep; subst p'; clear Hstep.
    at_pc HI Hpc; constructor; crush.
  - (* <-quit *)
    destruct (quit p) as [|s rest] eqn:Hq'; [discriminate Hstep|].
    inversion Hstep; subst p'; clear Hstep.
    assert (Hs : termination_signal s /\ Forall termination_signal rest).
    { pose proof (inv_quit HI) as HF. rewrite Hq' in HF. inversion HF; auto. }
    destruct Hs as [Hs Hrest].
    at_pc HI Hpc; constructor; crush.
  - (* zap.L().Info *)
    cbn in Hstep. inversion Hstep; subst p'; clear Hstep.
    at_pc HI Hpc; constructor; crush.
  - (* context.WithTimeout *)
    inversion Hstep; subst p'; clear Hstep.
    at_pc HI Hpc; constructor; crush.
  - (* defer cancel() *)
    inversion Hstep; subst p'; clear Hstep.
    at_pc HI Hpc; constructor; crush.
  - (* srv.Shutdown(ctx) is called *)
    destruct (srv p) as [s|] eqn:Hs;
      inversion Hstep; subst p'; clear Hstep;
      at_pc HI Hpc; constructor; crush.
  - (* srv.Shutdown(ctx) returns *)
    cbn in Hstep.
    destruct (srv_Shutdown x ctx) as [e|] eqn:Hsd;
      inversion Hstep; subst p'; clear Hstep;
      at_pc HI Hpc; constructor; crush.
  - (* zap.L().Fatal *)
    inversion Hstep; subst p'; clear Hstep.
    at_pc HI Hpc; constructor; crush.
  - (* fmt.Printf; return *)
    inversion Hstep; subst p'; clear Hstep.
    at_pc HI Hpc; constructor; crush.
  - (* returning *)
    destruct (defers p) as [|d ds] eqn:Hds.
    + inversion Hstep; subst p'; clear Hstep.
      at_pc HI Hpc; constructor; crush.
    + unfold call in Hstep.
      destruct d; cbn in Hstep;
        [ | destruct (db (world p)) as [h|] eqn:Hdb'; cbn in Hstep | | ];
        inversion Hstep; subst p'; clear Hstep;
        at_pc HI Hpc; constructor; crush.
  - (* panicking *)
    destruct (defers p) as [|d ds] eqn:Hds.
    + inversion Hstep; subst p'; clear Hstep.
      at_pc HI Hpc; constructor; crush.
    + unfold call in Hstep.
      destruct d; cbn in Hstep;
        [ | destruct (db (world p)) as [h|] eqn:Hdb'; cbn in Hstep | | ];
        inversion Hstep; subst p'; clear Hstep;
        at_pc HI Hpc; constructor; crush.
Qed.

Lemma step_Inv (x : Extern) (c : Choice) (p p' : Proc) :
  Inv x p -> step x c p = Some p' -> Inv x p'.
Proof.
  intros HI Hstep. unfold step in Hstep.
  destruct (status p) eqn:Hrun; try discriminate Hstep.
  destruct c as [|fail|s].
  - exact (main_step_Inv HI Hrun Hstep).
  - exact (listener_step_Inv fail HI Hrun Hstep).
  - inversion Hstep; subst p'. exact (deliver_Inv s HI Hrun).
Qed.

Lemma run_Inv (x : Extern) (cs : list Choice) :
  forall p p', Inv x p -> run x cs p = Some p' -> Inv x p'.
Proof.
  induction cs as [|c cs IH]; intros p p' HI Hrun; cbn in Hrun.
  - inversion Hrun; subst p'. exact HI.
  - destruct (step x c p) as [p1|] eqn:Hstep; [|discriminate Hrun].
    exact (IH p1 p' (step_Inv c HI Hstep) Hrun).
Qed.

Theorem reachable_Inv (x : Extern) (p : Proc) : reachable x p -> Inv x p.
Proof.
  intros [cs Hrun]. exact (run_Inv cs (Inv_init x) Hrun).
Qed.


(** ** Running the supervisor symbolically *)

Lemma run_cons (x : Extern) (c : Choice) (cs : list Choice) (p : Proc) :
  run x (c :: cs) p =
    match step x c p with
    | Some p' => run x cs p'
    | None => None
    end.
Proof. reflexivity. Qed.

Lemma run_app (x : Extern) (cs1 cs2 : list Choice) :
  forall p, run x (cs1 ++ cs2) p =
    match run x cs1 p with
    | Some p' => run x cs2 p'
    | None => None
    end.
Proof.
  induction cs1 as [|c cs1 IH]; intros p; cbn; [reflexivity|].
  destruct (step x c p); [apply IH | reflexivity].
Qed.

Lemma reachable_run (x : Extern) (cs : list Choice) (p p' : Proc) :
  reachable x p -> run x cs p = Some p' -> reachable x p'.
Proof.
  intros [cs0 H0] H. exists (cs0 ++ cs). rewrite run_app, H0. exact H.
Qed.

Lemma logger_ok_inv (x : Extern) :
  logger_ok x ->
  exists cfg lvl, settings.LogConfig_ (settings_Conf x) = Some cfg
                  /\ UnmarshalText x (settings.Level cfg) = Ok lvl.
Proof.
  unfold logger_ok, returns.
  destruct (settings.LogConfig_ (settings_Conf x)) as [cfg|]; [|discriminate].
  destruct (UnmarshalText x (settings.Level cfg)) as [lvl|e] eqn:Hu.
  - eauto.
  - rewrite (logger_Init_unparsed _ _ _ Hu). discriminate.
Qed.

Lemma mysql_ok_inv (x : Extern) :
  mysql_ok x ->
  exists cfg, settings.MySQLConfig_ (settings_Conf x) = Some cfg
              /\ sqlx_Connect x "mysql" (dsn_of cfg) = None.
Proof.
  unfold mysql_ok, returns.
  destruct (settings.MySQLConfig_ (settings_Conf x)) as [cfg|]; [|discriminate].
  destruct (sqlx_Connect x "mysql" (dsn_of cfg)) as [e|] eqn:Hc.
  - rewrite (mysql_Init_refused _ _ _ Hc). discriminate.
  - eauto.
Qed.

(** One step of a run, in a goal about [run] from an explicit state; the
    state reached is put back into the form of a record. *)
Ltac state_norm :=
  cbv beta iota delta
    [goto set_world set_defers set_srv set_listener set_notified set_quit
     set_status say push_defer os_Exit emit set_db set_zap_global on_err
     pc defers world srv listener notified quit status zap_global db out
     init world0 Addr inShutdown existsb Signal_eqb orb negb
     is_ErrServerClosed length Nat.ltb Nat.leb
     zap_L_log modify run_deferred mysql.Close bind gets deref ret panic];
  cbn [app].

Ltac run_step :=
  rewrite run_cons; unfold step, main_step, listener_step, deliver, call;
  state_norm.

(** The first thirteen statements of [main] when every initialisation
    succeeds. *)
Ltac startup_steps Hs Hlc Hu Hmc Hc Hr :=
  run_step; rewrite Hs; state_norm;
  run_step; rewrite Hlc, (logger_Init_parsed _ _ _ Hu); state_norm;
  do 2 run_step;
  run_step; rewrite Hmc, (mysql_Init_connected _ _ _ Hc); state_norm;
  run_step;
  run_step; rewrite Hr; state_norm;
  do 6 run_step.

Lemma run_until_recv_quit (x : Extern) :
  all_ok x ->
  exists w addr,
    run x until_recv_quit init =
      Some {| pc := at_recv_quit;
              defers := [d_redis_Close; d_mysql_Close; d_Sync];
              world := w;
              srv := Some {| Addr := addr; inShutdown := false |};
              listener := spawned;
              notified := [SIGINT; SIGTERM];
              quit := [];
              status := Running |}.
Proof.
  intros (Hs & Hl & Hm & Hr).
  destruct (logger_ok_inv Hl) as (lc & lvl & Hlc & Hu).
  destruct (mysql_ok_inv Hm) as (mc & Hmc & Hc).
  unfold settings_ok in Hs. unfold redis_ok in Hr.
  unfold until_recv_quit. cbn [repeat].
  startup_steps Hs Hlc Hu Hmc Hc Hr.
  cbn [run]. eexists. eexists. reflexivity.
Qed.

(** A normal shutdown can happen: when every initialisation succeeds and
    [srv.Shutdown] returns nil, the schedule [normal_schedule s] runs to the
    end of [main]. *)
Lemma normal_shutdown_runs (x : Extern) (s : Signal) :
  all_ok x -> srv_Shutdown x (5 * Second) = None -> termination_signal s ->
  exists p,
    run x (normal_schedule s) init = Some p
    /\ status p = Exited 0
    /\ In (EvRecv s) (trace p)
    /\ In (EvShutdownReturn None) (trace p).
Proof.
  intros (Hs & Hl & Hm & Hr) Hsd Hsig.
  destruct (logger_ok_inv Hl) as (lc & lvl & Hlc & Hu).
  destruct (mysql_ok_inv Hm) as (mc & Hmc & Hc).
  unfold settings_ok in Hs. unfold redis_ok in Hr.
  unfold normal_schedule, until_recv_quit. cbn [repeat app].
  startup_steps Hs Hlc Hu Hmc Hc Hr.
  run_step.
  destruct Hsig as [-> | ->].
  - do 7 run_step. rewrite Hsd. state_norm. do 5 run_step.
    cbn [run]. eexists. split; [reflexivity|]. unfold trace. cbn.
    repeat split; tauto.
  - do 7 run_step. rewrite Hsd. state_norm. do 5 run_step.
    cbn [run]. eexists. split; [reflexivity|]. unfold trace. cbn.
    repeat split; tauto.
Qed.

Lemma logger_fails_inv (x : Extern) (e : error) :
  returns (logger.Init x (settings.LogConfig_ (settings_Conf x))) (Some e) ->
  exists cfg, settings.LogConfig_ (settings_Conf x) = Some cfg
              /\ UnmarshalText x (settings.Level cfg) = Failed e.
Proof.
  unfold returns.
  destruct (settings.LogConfig_ (settings_Conf x)) as [cfg|]; [|discriminate].
  destruct (UnmarshalText x (settings.Level cfg)) as [lvl|e'] eqn:Hu.
  - rewrite (logger_Init_parsed _ _ _ Hu). discriminate.
  - rewrite (logger_Init_unparsed _ _ _ Hu). cbn. intros H. exists cfg.
    split; congruence.
Qed.

Lemma mysql_fails_inv (x : Extern) (e : error) :
  returns (mysql.Init x (settings.MySQLConfig_ (settings_Conf x))) (Some e) ->
  exists cfg, settings.MySQLConfig_ (settings_Conf x) = Some cfg
              /\ sqlx_Connect x "mysql" (dsn_of cfg) = Some e.
Proof.
  unfold returns.
  destruct (settings.MySQLConfig_ (settings_Conf x)) as [cfg|]; [|discriminate].
  destruct (sqlx_Connect x "mysql" (dsn_of cfg)) as [e'|] eqn:Hc.
  - rewrite (mysql_Init_refused _ _ _ Hc). cbn. intros H. exists cfg.
    split; congruence.
  - rewrite (mysql_Init_connected _ _ _ Hc). discriminate.
Qed.

Lemma init_fails_not_all_ok (x : Extern) (e : error) :
  init_fails x e -> ~ all_ok x.
Proof.
  intros Hf (Hs & Hl & Hm & Hr).
  unfold settings_ok, logger_ok, mysql_ok, redis_ok, returns in *.
  destruct Hf as [H | _ H | _ _ H | _ _ _ H]; unfold returns in H; congruence.
Qed.

(** When an initialisation fails, [main] alone runs to its end: it prints
    the error and returns. *)
Lemma failed_init_runs (x : Extern) (e : error) :
  init_fails x e ->
  exists n p,
    run x (repeat RunMain n) init = Some p
    /\ status p = Exited 0
    /\ In (EvPrintf ("init setting failed error:" ++ Error e ++ nl)%string) (trace p).
Proof.
  intros [Hs | Hs Hl | Hs Hl Hm | Hs Hl Hm Hr].
  - exists 3%nat. cbn [repeat].
    run_step. rewrite Hs. state_norm. do 2 run_step.
    cbn [run]. eexists. split; [reflexivity|]. unfold trace. cbn. tauto.
  - destruct (logger_fails_inv Hl) as (lc & Hlc & Hu).
    unfold settings_ok in Hs.
    exists 4%nat. cbn [repeat].
    run_step. rewrite Hs. state_norm.
    run_step. rewrite Hlc, (logger_Init_unparsed _ _ _ Hu). state_norm.
    do 2 run_step.
    cbn [run]. eexists. split; [reflexivity|]. unfold trace. cbn. tauto.
  - destruct (logger_ok_inv Hl) as (lc & lvl & Hlc & Hu).
    destruct (mysql_fails_inv Hm) as (mc & Hmc & Hc).
    unfold settings_ok in Hs.
    exists 8%nat. cbn [repeat].
    run_step. rewrite Hs. state_norm.
    run_step. rewrite Hlc, (logger_Init_parsed _ _ _ Hu). state_norm.
    do 2 run_step.
    run_step. rewrite Hmc, (mysql_Init_refused _ _ _ Hc). state_norm.
    do 3 run_step.
    cbn [run]. eexists. split; [reflexivity|]. unfold trace. cbn. tauto.
  - destruct (logger_ok_inv Hl) as (lc & lvl & Hlc & Hu).
    destruct (mysql_ok_inv Hm) as (mc & Hmc & Hc).
    unfold settings_ok in Hs.
    exists 11%nat. cbn [repeat].
    run_step. rewrite Hs. state_norm.
    run_step. rewrite Hlc, (logger_Init_parsed _ _ _ Hu). state_norm.
    do 2 run_step.
    run_step. rewrite Hmc, (mysql_Init_connected _ _ _ Hc). state_norm.
    run_step.
    run_step. rewrite Hr. state_norm.
    do 4 run_step.
    cbn [run]. eexists. split; [reflexivity|]. unfold trace. cbn. tauto.
Qed.

(** ** The supervisor: start-up *)

(** C2: in every state the process can reach, if the HTTP server has been
    created, or its goroutine started, then configuration loading,
    [logger.Init], [mysql.Init] and [redis.Init] have all returned nil.
    If one of them fails with [e], no reachable state has the listener
    started, and [main] runs to its end: it prints [e] and the process
    exits. *)
Theorem listener_needs_all_inits (x : Extern) :
  (forall p, reachable x p -> listener_started p -> all_ok x)
  /\ (forall e, init_fails x e ->
        (forall p, reachable x p -> ~ listener_started p)
        /\ exists n p,
             run x (repeat RunMain n) init = Some p
             /\ status p = Exited 0
             /\ In (EvPrintf ("init setting failed error:" ++ Error e ++ nl)%string)
                   (trace p)).
Proof.
  split.
  - intros p Hp. exact (inv_started (reachable_Inv Hp)).
  - intros e He. split.
    + intros p Hp Hst. apply (init_fails_not_all_ok He).
      exact (inv_started (reachable_Inv Hp) Hst).
    + exact (failed_init_runs He).
Qed.

(** ** The supervisor: waiting and shutting down *)

(** C3: every call of [srv.Shutdown] the process ever makes carries the
    deadline of 5 seconds.  And the call is made: from any reachable state
    in which [main] waits on [quit], once SIGINT or SIGTERM is delivered
    the next five statements of [main] receive a termination signal (the
    one delivered, if none was buffered), log, build the 5-second context
    and call [srv.Shutdown] with it. *)
Theorem shutdown_deadline_5s (x : Extern) (p : Proc) :
  reachable x p ->
  (forall d, In (EvShutdown d) (trace p) -> d = 5 * Second)
  /\ 5 * Second = 5000000000
  /\ (forall s, pc p = at_recv_quit -> status p = Running -> termination_signal s ->
        exists p' s',
          run x (Deliver s :: repeat RunMain 5) p = Some p'
          /\ termination_signal s'
          /\ (quit p = [] -> s' = s)
          /\ trace p' = trace p ++ [EvRecv s';
                                    EvZap InfoLevel "Shutdown Server ..." [];
                                    EvWithTimeout (5 * Second);
                                    EvShutdown (5 * Second)]
          /\ pc p' = in_Shutdown (5 * Second)
          /\ status p' = Running).
Proof.
  intros Hp. pose proof (reachable_Inv Hp) as HI.
  split; [exact (inv_deadline HI)|]. split; [reflexivity|].
  intros s Hpc Hrun Hs.
  pose proof (inv_notified HI) as Hn. pose proof (inv_srv HI) as Hsrv.
  pose proof (inv_quit HI) as Hq.
  rewrite Hpc in Hn, Hsrv. specialize (Hn eq_refl). specialize (Hsrv eq_refl).
  destruct p as [pc0 ds w sv li nt q st]. cbn in Hpc, Hrun, Hn, Hsrv, Hq.
  subst pc0 st nt.
  destruct sv as [[addr sh]|]; [|congruence].
  cbn [repeat].
  destruct q as [|s1 rest].
  - exists {| pc := in_Shutdown (5 * Second); defers := d_cancel :: ds;
              world := {| zap_global := zap_global w; db := db w;
                          out := out w ++ [EvRecv s;
                                           EvZap InfoLevel "Shutdown Server ..." [];
                                           EvWithTimeout (5 * Second);
                                           EvShutdown (5 * Second)] |};
              srv := Some {| Addr := addr; inShutdown := true |};
              listener := li; notified := [SIGINT; SIGTERM]; quit := [];
              status := Running |}, s.
    split; [|cbn; auto].
    destruct Hs as [-> | ->]; do 6 run_step; cbn [run]; unfold trace; cbn;
      rewrite <- !app_assoc; reflexivity.
  - inversion Hq as [|? ? Hs1 Hrest]; subst.
    exists {| pc := in_Shutdown (5 * Second); defers := d_cancel :: ds;
              world := {| zap_global := zap_global w; db := db w;
                          out := out w ++ [EvRecv s1;
                                           EvZap InfoLevel "Shutdown Server ..." [];
                                           EvWithTimeout (5 * Second);
                                           EvShutdown (5 * Second)] |};
              srv := Some {| Addr := addr; inShutdown := true |};
              listener := li; notified := [SIGINT; SIGTERM]; quit := rest;
              status := Running |}, s1.
    split; [|cbn; repeat split; auto; discriminate].
    destruct Hs as [-> | ->]; do 6 run_step; cbn [run]; unfold trace; cbn;
      rewrite <- !app_assoc; reflexivity.
Qed.

(** A step of the listener goroutine leaves [main] alone. *)
Ltac exists_listener_events Hstep Hpc :=
  repeat match type of Hstep with
         | context [if ?b then _ else _] => destruct b
         | context [match ?f with Some _ => _ | None => _ end] => destruct f
         end;
  inversion Hstep; subst; cbn; unfold trace; cbn;
  (split; [exact Hpc|]); (split; [reflexivity|]);
  first [ exists []; rewrite app_nil_r; split; reflexivity
        | eexists; split; reflexivity ].

(** C4: signal.Notify is only ever called for SIGINT and SIGTERM, and those
    are the only signals relayed to [quit].  While [main] stands at
    [<-quit], the listener goroutine has been started; [main] cannot take
    a step as long as [quit] is empty; and whatever happens next either is
    [main] receiving SIGINT or SIGTERM from [quit], or leaves [main] where
    it is, its defer stack untouched, the only new events being the
    listener's.  In every trace, a call of [srv.Shutdown] comes after the
    receipt of SIGINT or SIGTERM. *)
Theorem main_blocks_until_signal (x : Extern) (p : Proc) :
  reachable x p ->
  (forall sigs, In (EvNotify sigs) (trace p) -> sigs = [SIGINT; SIGTERM])
  /\ (notified p = [] \/ notified p = [SIGINT; SIGTERM])
  /\ shutdown_after_receipt (trace p)
  /\ (pc p = at_recv_quit ->
        notified p = [SIGINT; SIGTERM]
        /\ listener p <> not_spawned
        /\ (quit p = [] -> main_step x p = None)
        /\ forall c p', step x c p = Some p' ->
             (c = RunMain
              /\ exists s, termination_signal s
                           /\ trace p' = trace p ++ [EvRecv s]
                           /\ pc p' = at_Info)
             \/ (c <> RunMain
                 /\ pc p' = at_recv_quit
                 /\ defers p' = defers p
                 /\ exists l, trace p' = trace p ++ l
                              /\ forallb is_listener_event l = true)).
Proof.
  intros Hp. pose proof (reachable_Inv Hp) as HI.
  split; [exact (inv_Notify HI)|].
  split; [exact (inv_registered HI)|].
  split; [exact (inv_receipt HI)|].
  intros Hpc.
  pose proof (inv_notified HI) as Hn. pose proof (inv_spawned HI) as Hsp.
  pose proof (inv_quit HI) as Hq.
  rewrite Hpc in Hn, Hsp. specialize (Hn eq_refl). specialize (Hsp eq_refl).
  split; [exact Hn|]. split; [exact Hsp|]. split.
  - intros Hempty. unfold main_step. rewrite Hpc, Hempty. reflexivity.
  - intros c p' Hstep. unfold step in Hstep.
    destruct (status p) eqn:Hst; try discriminate Hstep.
    destruct c as [|fail|s].
    + left. split; [reflexivity|].
      unfold main_step in Hstep. rewrite Hpc in Hstep.
      destruct (quit p) as [|s rest]; [discriminate Hstep|].
      inversion Hstep; subst p'. inversion Hq; subst.
      exists s. repeat split; assumption.
    + right. split; [discriminate|].
      unfold listener_step in Hstep.
      destruct (listener p) as [| | |err|]; try discriminate Hstep.
      * destruct (srv p) as [sv|].
        -- exists_listener_events Hstep Hpc.
        -- inversion Hstep; subst p'. cbn. repeat split; auto.
           exists []. rewrite app_nil_r. split; reflexivity.
      * destruct (srv p) as [sv|].
        -- exists_listener_events Hstep Hpc.
        -- inversion Hstep; subst p'. cbn. repeat split; auto.
           exists []. rewrite app_nil_r. split; reflexivity.
      * exists_listener_events Hstep Hpc.
    + right. split; [discriminate|].
      inversion Hstep; subst p'. unfold deliver.
      destruct (existsb (Signal_eqb s) (notified p));
        [destruct (length (quit p) <? 1)%nat | destruct (default_disposition s)];
        cbn; repeat split; auto;
        exists []; rewrite app_nil_r; split; reflexivity.
Qed.

(** Once [main] has returned it completes: left to run, it makes the
    deferred calls one after the other, none of them panics, and the
    process exits with code 0. *)
Lemma returning_completes (x : Extern) (n : nat) :
  forall p, reachable x p -> pc p = returning -> status p = Running ->
    length (defers p) = n ->
    exists p', run x (repeat RunMain (S n)) p = Some p' /\ status p' = Exited 0.
Proof.
  induction n as [|n IH]; intros p Hp Hpc Hrun Hlen.
  - destruct (defers p) as [|d ds] eqn:Hds; [|discriminate Hlen].
    cbn [repeat]. rewrite run_cons. unfold step, main_step.
    rewrite Hrun, Hpc, Hds. cbn [run]. eexists. split; reflexivity.
  - destruct (defers p) as [|d ds] eqn:Hds; [discriminate Hlen|].
    injection Hlen as Hlen.
    assert (Hstep : exists p1, step x RunMain p = Some p1 /\ pc p1 = returning
                               /\ status p1 = Running /\ defers p1 = ds).
    { unfold step, main_step, call. rewrite Hrun, Hpc, Hds.
      destruct d; cbn.
      - eexists. split; [reflexivity|]. cbn. auto.
      - pose proof (inv_db (reachable_Inv Hp)) as Hdb. rewrite Hds in Hdb.
        destruct (db (world p)) as [h|] eqn:Hh.
        + cbn. eexists. split; [reflexivity|]. cbn. auto.
        + exfalso. apply Hdb; [left; reflexivity | reflexivity].
      - eexists. split; [reflexivity|]. cbn. auto.
      - eexists. split; [reflexivity|]. cbn. auto. }
    destruct Hstep as (p1 & Hstep & Hpc1 & Hrun1 & Hds1).
    assert (Hp1 : reachable x p1).
    { apply (reachable_run [RunMain] Hp). cbn. rewrite Hstep. reflexivity. }
    destruct (IH p1 Hp1 Hpc1 Hrun1) as (p' & Hrun' & Hex).
    { rewrite Hds1. exact Hlen. }
    exists p'. split; [|exact Hex].
    change (repeat RunMain (S (S n))) with (RunMain :: repeat RunMain (S n)).
    rewrite run_cons, Hstep. exact Hrun'.
Qed.

(** C5: a normal shutdown exists, and on it every teardown runs once.
    When all initialisations succeed and [srv.Shutdown] returns nil, the
    run in which the listener serves, signal [s] (SIGINT or SIGTERM)
    arrives and [main] runs on, ends with [main] returned (exit code 0).
    In whatever reachable state [srv.Shutdown] has returned nil,
    [db.Close()] and [redis.Close()] have each been called at most once
    and every such call comes after that return; [main], left to run,
    then reaches its end; and once the process has ended by [main]
    returning, each of the two has been called exactly once. *)
Theorem teardown_once_after_shutdown (x : Extern) :
  (forall s, all_ok x -> srv_Shutdown x (5 * Second) = None ->
     termination_signal s ->
     exists p, run x (normal_schedule s) init = Some p
               /\ status p = Exited 0
               /\ In (EvRecv s) (trace p)
               /\ In (EvShutdownReturn None) (trace p))
  /\ (forall p, reachable x p -> In (EvShutdownReturn None) (trace p) ->
        (count is_DBClose (trace p) <= 1)%nat
        /\ (count is_RedisClose (trace p) <= 1)%nat
        /\ all_after (EvShutdownReturn None) is_teardown (trace p)
        /\ (status p = Running ->
              exists n p', run x (repeat RunMain n) p = Some p'
                           /\ status p' = Exited 0)
        /\ (status p = Exited 0 ->
              count is_DBClose (trace p) = 1%nat
              /\ count is_RedisClose (trace p) = 1%nat)).
Proof.
  split.
  - intros s Hok Hsd Hs. exact (normal_shutdown_runs Hok Hsd Hs).
  - intros p Hp Hret. pose proof (reachable_Inv Hp) as HI.
    assert (Hgo : In EvGo (trace p)).
    { apply (inv_returned HI). exists None. exact Hret. }
    destruct (inv_once HI) as [Hd Hr].
    destruct (inv_owed HI Hgo) as [Hd1 Hr1].
    split; [lia|]. split; [lia|]. split; [exact (inv_after HI Hgo)|].
    split.
    + intros Hrun.
      destruct (returning_completes Hp (inv_returning HI Hret) Hrun eq_refl)
        as (p' & Hrun' & Hex).
      exists (S (length (defers p))), p'. split; assumption.
    + intros Hex. destruct (inv_exit0 HI Hex) as [Hds _].
      rewrite Hds in Hd1, Hr1. cbn in Hd1, Hr1. lia.
Qed.

Lemma is_ErrServerClosed_spec (e : error) :
  is_ErrServerClosed e = true <-> e = ErrServerClosed.
Proof. destruct e; cbn; split; intros H; try discriminate H; reflexivity. Qed.

Lemma is_ErrServerClosed_false (e : error) :
  is_ErrServerClosed e = false <-> e <> ErrServerClosed.
Proof.
  rewrite <- is_ErrServerClosed_spec. destruct (is_ErrServerClosed e); split;
    congruence.
Qed.

(** C6: when [srv.ListenAndServe] has returned [err] in the goroutine, its
    next step ends the process with exit code 1 after printing
    ["listen: " ++ err] through [log.Fatalf], unless [err] is
    [http.ErrServerClosed]; in that case the goroutine just finishes and
    nothing else changes.  After [srv.Shutdown] has been called,
    [ListenAndServe] returns [http.ErrServerClosed].  In every reachable
    state, a [log.Fatalf] entry in the trace means that the process has
    exited with code 1 on an error other than [http.ErrServerClosed]. *)
Theorem listener_failure_is_fatal (x : Extern) (p : Proc) :
  (forall err fail, status p = Running -> listener p = returned err ->
     exists p', step x (RunListener fail) p = Some p'
       /\ (err <> ErrServerClosed ->
           status p' = Exited 1
           /\ trace p' = trace p ++
                [EvLogFatalf ("listen: " ++ Error err ++ nl)%string])
       /\ (err = ErrServerClosed ->
           status p' = Running /\ listener p' = finished
           /\ trace p' = trace p /\ pc p' = pc p /\ defers p' = defers p))
  /\ (forall sv fail p', status p = Running ->
        srv p = Some sv -> inShutdown sv = true ->
        listener p = spawned \/ listener p = serving ->
        step x (RunListener fail) p = Some p' ->
        listener p' = returned ErrServerClosed /\ status p' = Running)
  /\ (reachable x p ->
        forall t, In (EvLogFatalf t) (trace p) ->
          status p = Exited 1
          /\ exists err, listener p = returned err
                         /\ err <> ErrServerClosed
                         /\ t = ("listen: " ++ Error err ++ nl)%string).
Proof.
  split; [|split].
  - intros err fail Hrun Hl. unfold step, listener_step. rewrite Hrun, Hl.
    destruct (is_ErrServerClosed err) eqn:Herr; cbn; eexists;
      (split; [reflexivity|]).
    + apply is_ErrServerClosed_spec in Herr. split; [congruence|].
      intros _. cbn. auto.
    + apply is_ErrServerClosed_false in Herr. split; [|congruence].
      intros _. cbn. auto.
  - intros sv fail p' Hrun Hsrv Hsh Hl Hstep.
    unfold step, listener_step in Hstep. rewrite Hrun, Hsrv, Hsh in Hstep.
    destruct Hl as [Hl | Hl]; rewrite Hl in Hstep; inversion Hstep; subst p';
      cbn; auto.
  - intros Hp t Ht.
    destruct (inv_Fatalf (reachable_Inv Hp) t Ht) as [Hex (err & Hl & Herr & Heq)].
    split; [exact Hex|]. exists err. split; [exact Hl|].
    split; [apply is_ErrServerClosed_false; exact Herr | exact Heq].
Qed.

(** After a call of [srv.Shutdown] has returned an error, the process
    stands at [zap.L().Fatal] or has exited through it: no teardown has
    run, none ever will, and [main] does not return. *)
Theorem failed_shutdown_never_tears_down (x : Extern) (p : Proc) (e : error) :
  reachable x p ->
  In (EvShutdownReturn (Some e)) (trace p) ->
  pc p = at_Fatal e
  /\ count is_DBClose (trace p) = O
  /\ count is_RedisClose (trace p) = O
  /\ defers p = [d_cancel; d_redis_Close; d_mysql_Close; d_Sync]
  /\ status p <> Exited 0.
Proof.
  intros Hp Hin. pose proof (reachable_Inv Hp) as HI.
  pose proof (inv_failed HI e Hin) as Hpc.
  pose proof (inv_quiet HI) as Hq. pose proof (inv_stack HI) as Hst.
  pose proof (inv_exit0 HI) as Hex.
  rewrite Hpc in Hq, Hst, Hex. cbn in Hq, Hst.
  destruct (Hq eq_refl) as [Hd Hr].
  repeat split; auto.
  intros H0. destruct (Hex H0) as [_ H1]. discriminate H1.
Qed.

(** C1, on the code: [srv.Shutdown] fails with
    [context.DeadlineExceeded].  All initialisations succeed, the listener
    serves and SIGTERM arrives; [main] logs the failure with
    [zap.L().Fatal], which ends the process with exit code 1.  The four
    deferred calls are still on the defer stack: neither [db.Close()] nor
    [redis.Close()] has been called, and the process takes no further
    step. *)
Theorem deadline_exceeded_skips_teardown :
  exists p,
    run x_deadline (fatal_schedule SIGTERM) init = Some p
    /\ In (EvShutdownReturn (Some DeadlineExceeded)) (trace p)
    /\ In (EvZap FatalLevel "Server Shutdown" [zap_Error DeadlineExceeded]) (trace p)
    /\ status p = Exited 1
    /\ defers p = [d_cancel; d_redis_Close; d_mysql_Close; d_Sync]
    /\ count is_DBClose (trace p) = O
    /\ count is_RedisClose (trace p) = O
    /\ (forall c, step x_deadline c p = None).
Proof.
  eexists. split; [vm_compute; reflexivity|].
  split; [vm_compute; tauto|]. split; [vm_compute; tauto|].
  repeat split.
Qed.

(** ** The theorems at work on the example runs *)

Lemma p_serving_reachable : reachable x_ok p_serving.
Proof. exists (until_recv_quit ++ [RunListener None]). vm_compute. reflexivity. Defined.

Lemma p_shut_down_reachable : reachable x_ok p_shut_down.
Proof. exists (normal_schedule SIGINT). vm_compute. reflexivity. Defined.

Lemma mysql_Init_example :
  fst (mysql.Init x_ok (Some example_MySQLConfig) world0) = Val None
  /\ out (snd (mysql.Init x_ok (Some example_MySQLConfig) world0)) =
       [EvSqlxConnect "mysql"
          "root:secret@tcp(127.0.0.1:3306)/web_app?charset=utf8mb4&parseTime=true";
        EvSetMaxOpenConns 200; EvSetMaxIdleConns 50].
Proof. split; reflexivity. Qed.

Lemma GinRecovery_broken_pipe_example :
  logger.GinRecovery x_ok true (panics_with broken_pipe_panic)
    (world0, example_Context)
  = (Val tt,
     (emit (broken_pipe_entry broken_pipe_panic (c_Request example_Context)) world0,
      with_calls example_Context [c_Error broken_pipe_panic; c_Abort])).
Proof. reflexivity. Qed.

Lemma GinRecovery_panic_example :
  logger.GinRecovery x_ok false (panics_with (PanicOther "index out of range"))
    (world0, example_Context)
  = (Val tt,
     (emit (recovery_entry x_ok false (PanicOther "index out of range")
              (c_Request example_Context)) world0,
      with_calls example_Context [c_AbortWithStatus 500])).
Proof. reflexivity. Qed.

Lemma listener_needs_all_inits_witness :
  all_ok x_ok
  /\ exists n p,
       run x_refused (repeat RunMain n) init = Some p
       /\ status p = Exited 0
       /\ In (EvPrintf ("init setting failed error:" ++ Error connection_refused ++ nl)%string)
             (trace p).
Proof.
  split.
  - apply (proj1 (listener_needs_all_inits x_ok) p_serving p_serving_reachable).
    right. left. vm_compute. discriminate.
  - apply (proj2 (listener_needs_all_inits x_refused) connection_refused).
    apply mysql_fails; vm_compute; reflexivity.
Defined.

Lemma shutdown_deadline_5s_witness :
  5 * Second = 5000000000
  /\ exists p' s',
       run x_ok (Deliver SIGINT :: repeat RunMain 5) p_serving = Some p'
       /\ termination_signal s'
       /\ (quit p_serving = [] -> s' = SIGINT)
       /\ trace p' = trace p_serving ++ [EvRecv s';
                                         EvZap InfoLevel "Shutdown Server ..." [];
                                         EvWithTimeout (5 * Second);
                                         EvShutdown (5 * Second)]
       /\ pc p' = in_Shutdown (5 * Second)
       /\ status p' = Running.
Proof.
  destruct (shutdown_deadline_5s p_serving_reachable) as [_ [H5 Hrun]].
  split; [exact H5|].
  apply (Hrun SIGINT); [vm_compute; reflexivity | vm_compute; reflexivity |].
  left. reflexivity.
Defined.

Lemma main_blocks_until_signal_witness :
  notified p_serving = [SIGINT; SIGTERM]
  /\ listener p_serving <> not_spawned
  /\ main_step x_ok p_serving = None.
Proof.
  destruct (main_blocks_until_signal p_serving_reachable) as [_ [_ [_ H]]].
  assert (Hpc : pc p_serving = at_recv_quit) by (vm_compute; reflexivity).
  destruct (H Hpc) as [Hn [Hl [Hb _]]].
  split; [exact Hn|]. split; [exact Hl|].
  apply Hb. vm_compute. reflexivity.
Defined.

Lemma teardown_once_after_shutdown_witness :
  (exists p, run x_ok (normal_schedule SIGINT) init = Some p
             /\ status p = Exited 0
             /\ In (EvRecv SIGINT) (trace p)
             /\ In (EvShutdownReturn None) (trace p))
  /\ count is_DBClose (trace p_shut_down) = 1%nat
  /\ count is_RedisClose (trace p_shut_down) = 1%nat.
Proof.
  destruct (teardown_once_after_shutdown x_ok) as [Hex Hall].
  split.
  - apply Hex.
    + repeat split; vm_compute; reflexivity.
    + vm_compute. reflexivity.
    + left. reflexivity.
  - apply (Hall p_shut_down p_shut_down_reachable).
    + vm_compute. tauto.
    + vm_compute. reflexivity.
Defined.

Lemma p_server_closed_reachable : reachable x_ok p_server_closed.
Proof.
  exists (until_recv_quit ++ [RunListener None; Deliver SIGINT]
          ++ repeat RunMain 5 ++ [RunListener None]).
  vm_compute. reflexivity.
Defined.

Lemma listener_failure_is_fatal_witness :
  (exists p',
     step x_ok (RunListener None) p_listen_failed = Some p'
     /\ status p' = Exited 1
     /\ trace p' = trace p_listen_failed ++
          [EvLogFatalf ("listen: listen tcp :8081: bind: address already in use"
                        ++ nl)%string])
  /\ listener p_server_closed = returned ErrServerClosed
  /\ (exists p',
        step x_ok (RunListener None) p_server_closed = Some p'
        /\ status p' = Running /\ listener p' = finished
        /\ trace p' = trace p_server_closed)
  /\ (forall t, ~ In (EvLogFatalf t) (trace p_server_closed)).
Proof.
  split; [|split; [|split]].
  - destruct (proj1 (listener_failure_is_fatal x_ok p_listen_failed)
                address_in_use None) as (p' & Hstep & Hfatal & _);
      [vm_compute; reflexivity | vm_compute; reflexivity |].
    exists p'. split; [exact Hstep|]. apply Hfatal. discriminate.
  - vm_compute. reflexivity.
  - destruct (proj1 (listener_failure_is_fatal x_ok p_server_closed)
                ErrServerClosed None) as (p' & Hstep & _ & Hclosed);
      [vm_compute; reflexivity | vm_compute; reflexivity |].
    exists p'. split; [exact Hstep|].
    destruct (Hclosed eq_refl) as (H1 & H2 & H3 & _). auto.
  - intros t Ht.
    destruct (proj2 (proj2 (listener_failure_is_fatal x_ok p_server_closed))
                p_server_closed_reachable t Ht) as [Hex _].
    vm_compute in Hex. discriminate Hex.
Defined.

Lemma mysql_Init_spec_witness :
  (exists w' d,
     mysql.Init x_ok (Some example_MySQLConfig) world0 = (Val None, w')
     /\ db w' = Some d
     /\ driverName d = "mysql"
     /\ dataSourceName d =
          "root:secret@tcp(127.0.0.1:3306)/web_app?charset=utf8mb4&parseTime=true"
     /\ out w' =
          [EvSqlxConnect "mysql"
             "root:secret@tcp(127.0.0.1:3306)/web_app?charset=utf8mb4&parseTime=true";
           EvSetMaxOpenConns 200; EvSetMaxIdleConns 50]
     /\ maxOpen d = 200 /\ maxIdleCount d = 50)
  /\ (exists w' d,
        mysql.Init x_ok (Some small_pool_MySQLConfig) world0 = (Val None, w')
        /\ db w' = Some d
        /\ out w' =
             [EvSqlxConnect "mysql"
                "root:secret@tcp(127.0.0.1:3306)/web_app?charset=utf8mb4&parseTime=true";
              EvSetMaxOpenConns 10; EvSetMaxIdleConns 50]
        /\ maxOpen d = 10 /\ maxIdleCount d = 10)
  /\ (exists w',
        mysql.Init x_refused (Some example_MySQLConfig) world0
        = (Val (Some connection_refused), w')
        /\ db w' = None
        /\ out w' =
             [EvSqlxConnect "mysql"
                "root:secret@tcp(127.0.0.1:3306)/web_app?charset=utf8mb4&parseTime=true";
              EvZap ErrorLevel "connect to DB failed"
                [zap_Error connection_refused]]).
Proof.
  split; [|split].
  - destruct (proj1 (mysql_Init_spec x_ok example_MySQLConfig world0) eq_refl)
      as (w' & d & H1 & H2 & H3 & H4 & H5 & H6 & H7 & _).
    exists w', d. repeat split; assumption.
  - destruct (proj1 (mysql_Init_spec x_ok small_pool_MySQLConfig world0) eq_refl)
      as (w' & d & H1 & H2 & H3 & H4 & H5 & H6 & H7 & _).
    exists w', d. repeat split; assumption.
  - exact (proj2 (mysql_Init_spec x_refused example_MySQLConfig world0)
             connection_refused eq_refl).
Defined.

Lemma mysql_Close_needs_Init_witness :
  mysql.Close world0 = (Panic nil_dereference, world0).
Proof.
  apply (proj1 (mysql_Close_needs_Init world0)). reflexivity.
Defined.

Lemma logger_Init_spec_witness :
  fst (logger.Init x_ok (Some bad_LogConfig) world0)
  = Val (Some (ErrorString "unrecognized level: verbose")).
Proof.
  apply (proj1 (logger_Init_spec x_ok bad_LogConfig world0)).
  vm_compute. reflexivity.
Defined.

(** * Further properties *)


(** ** More on the connector *)

Lemma append_assoc (a b c : string) : ((a ++ b) ++ c = a ++ b ++ c)%string.
Proof. induction a as [|ch a IH]; cbn; [reflexivity | rewrite IH; reflexivity]. Qed.

(** X1: [mysql.Init] does not escape what it puts into the data source
    name: two configurations whose user and password, joined by a colon,
    read the same, and that agree on everything else, make the same call of
    [sqlx.Connect] and leave the same state. *)
Theorem mysql_Init_credentials_not_escaped (x : Extern)
    (c1 c2 : settings.MySQLConfig) (w : World) :
  (settings.User c1 ++ ":" ++ settings.Password c1
   = settings.User c2 ++ ":" ++ settings.Password c2)%string ->
  settings.Host c1 = settings.Host c2 ->
  settings.Port c1 = settings.Port c2 ->
  settings.DbName c1 = settings.DbName c2 ->
  settings.MaxOpenConns c1 = settings.MaxOpenConns c2 ->
  settings.MaxIdleConns c1 = settings.MaxIdleConns c2 ->
  mysql.Init x (Some c1) w = mysql.Init x (Some c2) w.
Proof.
  intros Hup Hh Hp Hd Ho Hi.
  assert (Hdsn : dsn_of c1 = dsn_of c2).
  { unfold dsn_of. rewrite <- !append_assoc. rewrite <- !append_assoc in Hup.
    rewrite Hup, Hh, Hp, Hd. reflexivity. }
  destruct (sqlx_Connect x "mysql" (dsn_of c2)) as [e|] eqn:Hc.
  - rewrite (mysql_Init_refused _ _ _ Hc).
    rewrite <- Hdsn in Hc. rewrite (mysql_Init_refused _ _ _ Hc), Hdsn.
    reflexivity.
  - rewrite (mysql_Init_connected _ _ _ Hc).
    rewrite <- Hdsn in Hc. rewrite (mysql_Init_connected _ _ _ Hc), Hdsn, Ho, Hi.
    reflexivity.
Qed.

Lemma mysql_Close_handle_cases (w : World) :
  (db w = None -> mysql.Close w = (Panic nil_dereference, w))
  /\ (forall d, db w = Some d ->
        mysql.Close w = (Val tt, emit EvDBClose w) /\ db (emit EvDBClose w) = Some d).
Proof.
  split.
  - intros H. unfold mysql.Close, bind, gets, deref. rewrite H. reflexivity.
  - intros d H. unfold mysql.Close, bind, gets, deref. rewrite H. split; [reflexivity|].
    exact H.
Qed.

Lemma Close_times_handle (n : nat) :
  forall w d, db w = Some d ->
    Close_times n w =
      (Val tt, {| zap_global := zap_global w; db := db w;
                  out := out w ++ repeat EvDBClose n |}).
Proof.
  induction n as [|n IH]; intros w d Hd.
  - cbn. rewrite app_nil_r. destruct w; reflexivity.
  - cbn [Close_times]. unfold bind at 1.
    destruct (proj2 (mysql_Close_handle_cases w) d Hd) as [Hc Hd'].
    rewrite Hc.
    rewrite (IH (emit EvDBClose w) d Hd'). cbn.
    rewrite <- app_assoc. reflexivity.
Qed.

(** X2: [mysql.Close] leaves the handle in place.  After [mysql.Init] has
    connected, any number of calls of [mysql.Close] return without panic,
    each of them reaches [db.Close()] again, and the package still holds
    the handle that [Init] left, with the data source it was opened on. *)
Theorem mysql_Close_repeated (x : Extern) (cfg : settings.MySQLConfig)
    (w : World) (n : nat) :
  sqlx_Connect x "mysql" (dsn_of cfg) = None ->
  exists w' d,
    (mysql.Init x (Some cfg) ;; Close_times n) w = (Val tt, w')
    /\ db (snd (mysql.Init x (Some cfg) w)) = Some d
    /\ db w' = Some d
    /\ driverName d = "mysql" /\ dataSourceName d = dsn_of cfg
    /\ out w' = out w ++ [EvSqlxConnect "mysql" (dsn_of cfg);
                          EvSetMaxOpenConns (settings.MaxOpenConns cfg);
                          EvSetMaxIdleConns (settings.MaxIdleConns cfg)]
                      ++ repeat EvDBClose n.
Proof.
  intros Hc. unfold bind. rewrite (mysql_Init_connected _ _ _ Hc).
  erewrite Close_times_handle by reflexivity.
  destruct (fresh_pool_limits "mysql" (dsn_of cfg) (settings.MaxOpenConns cfg)
              (settings.MaxIdleConns cfg)) as (Hdr & Hds & _).
  eexists. eexists. split; [reflexivity|]. cbn [snd db out].
  split; [reflexivity|]. split; [reflexivity|].
  split; [exact Hdr|]. split; [exact Hds|].
  rewrite <- app_assoc. reflexivity.
Qed.

(** X3: [mysql.Init] never closes a handle.  Called again while a handle is
    held, it overwrites the handle, with nil when the connection fails and
    with a new handle when it succeeds, and [db.Close()] is not called on
    the one it replaces: nothing of the old handle is left, the package
    holds what [Init] leaves when no handle was held. *)
Theorem mysql_Init_overwrites (x : Extern) (cfg : option settings.MySQLConfig)
    (w : World) :
  count is_DBClose (out (snd (mysql.Init x cfg w))) = count is_DBClose (out w)
  /\ (cfg <> None ->
      db (snd (mysql.Init x cfg w)) = db (snd (mysql.Init x cfg world0)))
  /\ (forall c e, cfg = Some c -> sqlx_Connect x "mysql" (dsn_of c) = Some e ->
        db (snd (mysql.Init x cfg w)) = None)
  /\ (forall c, cfg = Some c -> sqlx_Connect x "mysql" (dsn_of c) = None ->
        exists d, db (snd (mysql.Init x cfg w)) = Some d
                  /\ driverName d = "mysql" /\ dataSourceName d = dsn_of c).
Proof.
  destruct cfg as [c|].
  - destruct (sqlx_Connect x "mysql" (dsn_of c)) as [e|] eqn:Hc.
    + rewrite !(mysql_Init_refused _ _ _ Hc). cbn [snd out db].
      split; [rewrite count_app; cbn; lia|]. split; [reflexivity|]. split.
      * reflexivity.
      * intros c' Hc'. injection Hc' as <-. congruence.
    + rewrite !(mysql_Init_connected _ _ _ Hc). cbn [snd out db].
      split; [rewrite count_app; cbn; lia|]. split; [reflexivity|]. split.
      * intros c' e Hc'. injection Hc' as <-. congruence.
      * intros c' Hc' _. injection Hc' as <-.
        destruct (fresh_pool_limits "mysql" (dsn_of c) (settings.MaxOpenConns c)
                    (settings.MaxIdleConns c)) as (Hdr & Hds & _).
        eexists. split; [reflexivity|]. split; [exact Hdr | exact Hds].
  - rewrite mysql_Init_nil. cbn. split; [reflexivity|].
    split; [congruence|]. split; intros; discriminate.
Qed.

(** ** More on the middlewares *)

Lemma prefix_spec (p s : string) :
  String.prefix p s = true <-> exists b, s = (p ++ b)%string.
Proof.
  revert s. induction p as [|c p IH]; intros s.
  - destruct s; cbn; (split; [intros _; eexists; reflexivity | intros _; reflexivity]).
  - destruct s as [|c' s]; cbn.
    + split; [discriminate | intros [b H]; discriminate H].
    + destruct (Ascii.ascii_dec c c') as [->|Hne].
      * rewrite IH. split; intros [b H]; exists b; congruence.
      * split; [discriminate|]. intros [b H]. congruence.
Qed.

Lemma Contains_spec (s sub : string) :
  Contains s sub = true <-> has_substring s sub.
Proof.
  unfold has_substring. induction s as [|c s IH]; cbn [Contains].
  - rewrite orb_false_r, prefix_spec. split.
    + intros [b H]. exists EmptyString, b. exact H.
    + intros [a [b H]]. destruct a as [|? ?]; [|discriminate H].
      exists b. exact H.
  - rewrite orb_true_iff, prefix_spec, IH. split.
    + intros [[b H] | [a [b H]]].
      * exists EmptyString, b. exact H.
      * exists (String c a), b. cbn. rewrite H. reflexivity.
    + intros [a [b H]]. destruct a as [|c' a].
      * left. exists b. exact H.
      * right. cbn in H. injection H as _ H. exists a, b. exact H.
Qed.

(** X4: what [GinRecovery] takes for a broken connection.  The recovered
    value is taken for one exactly when it is a [*net.OpError] whose [Err]
    is an [*os.SyscallError] and the lower-cased text of that error,
    [Syscall ++ ": " ++ Err.Error()], has "broken pipe" or "connection
    reset by peer" somewhere in it.  The same text in any other error, or
    in the [OpError] itself, does not count. *)
Theorem brokenPipe_spec (x : Extern) (v : PanicVal) :
  logger.brokenPipe x v = true <->
  exists op net src addr sc e,
    v = PanicError (OpError op net src addr (SyscallError sc e))
    /\ (has_substring (strings_ToLower x (sc ++ ": " ++ Error e)%string) "broken pipe"
        \/ has_substring (strings_ToLower x (sc ++ ": " ++ Error e)%string)
             "connection reset by peer").
Proof.
  split.
  - intros H.
    destruct (brokenPipe_is_error _ _ H) as (op & net & src & addr & sc & e & ->).
    exists op, net, src, addr, sc, e. split; [reflexivity|].
    cbn in H. apply orb_true_iff in H.
    rewrite !Contains_spec in H. exact H.
  - intros (op & net & src & addr & sc & e & -> & H).
    cbn. apply orb_true_iff. rewrite !Contains_spec. exact H.
Qed.

(** X5: a second [GinRecovery] catches what the first lets through.  When
    the chain returns, or panics with a value on which the test of the
    deferred closure runs to its end, [GinRecovery] installed twice behaves
    as installed once.  When the chain panics with a nil [*net.OpError],
    the inner middleware panics with a nil dereference; the outer one
    recovers that, logs the recovery entry and calls
    [c.AbortWithStatus(500)].  When the test panics with [raised] on a
    faulty [*net.OpError], the outer middleware treats [raised] as it would
    treat a panic of the chain. *)
Theorem GinRecovery_twice (x : Extern) (stack1 stack2 : bool)
    (Next : HandlerFunc) (s : World * Context) :
  match Next s with
  | (Val tt, _) =>
      logger.GinRecovery x stack1 (logger.GinRecovery x stack2 Next) s
      = logger.GinRecovery x stack2 Next s
  | (Panic v, s1) =>
      match v with
      | PanicError NilOpError =>
          logger.GinRecovery x stack2 Next s = (Panic nil_dereference, s1)
          /\ logger.GinRecovery x stack1 (logger.GinRecovery x stack2 Next) s
             = (Val tt,
                (emit (recovery_entry x stack1 nil_dereference (c_Request (snd s1)))
                   (fst s1),
                 with_calls (snd s1) [c_AbortWithStatus 500]))
      | PanicFaultyOpError _ _ _ _ raised =>
          logger.GinRecovery x stack2 Next s = (Panic raised, s1)
          /\ logger.GinRecovery x stack1 (logger.GinRecovery x stack2 Next) s
             = logger.GinRecovery x stack1 (panic raised) s1
      | _ =>
          logger.GinRecovery x stack1 (logger.GinRecovery x stack2 Next) s
          = logger.GinRecovery x stack2 Next s
          /\ exists s', logger.GinRecovery x stack2 Next s = (Val tt, s')
      end
  end.
Proof.
  pose proof (GinRecovery_spec x stack2 Next s) as H.
  assert (Hout : forall r s',
            logger.GinRecovery x stack2 Next s = (r, s') ->
            logger.GinRecovery x stack1 (logger.GinRecovery x stack2 Next) s
            = match r with
              | Val tt => (Val tt, s')
              | Panic v => logger.GinRecovery x stack1 (panic v) s'
              end).
  { intros r s' Hr. unfold logger.GinRecovery at 1 3. unfold defer_recover.
    rewrite Hr. destruct r as [[]|v]; reflexivity. }
  destruct (Next s) as [[[]|v] [w1 c1]].
  - rewrite (Hout _ _ H). symmetry. exact H.
  - destruct v as [e|r|op net src addr raised|r]; [destruct e| | |];
      try (match type of H with
           | if ?b then _ else _ => destruct b
           end;
           (split; [rewrite (Hout _ _ H); symmetry; exact H
                   | eexists; exact H])).
    + (* a nil OpError *)
      split; [exact H|]. rewrite (Hout _ _ H).
      pose proof (GinRecovery_spec x stack1 (panic nil_dereference) (w1, c1)) as H1.
      cbn in H1. cbn [fst snd]. exact H1.
    + (* a faulty OpError *)
      split; [exact H|]. exact (Hout _ _ H).
Qed.

(** ** The access logger *)

(** X6: [GinLogger] writes its entry exactly when the chain returns.  The
    entry then carries the path and the query the request had when it
    arrived, and the status, method, client address, user agent and errors
    that the context shows after the chain, with the time the chain took.
    When the chain panics, [GinLogger] writes nothing and the panic goes
    on to its caller.  In both cases the world, the context and the clock
    are as the chain left them. *)
Theorem GinLogger_spec (g : GinReads) (Next : Handler) (s : Serving) :
  match Next s with
  | (Val tt, s1) =>
      GinLogger g Next s = (Val tt, logged (access_entry g s s1) s1)
  | (Panic v, s1) =>
      GinLogger g Next s = (Panic v, s1)
  end.
Proof.
  unfold GinLogger, bind, gets.
  destruct (Next s) as [[[]|v] s1]; reflexivity.
Qed.

(** X7: with [GinLogger] in front of [GinRecovery], a request gets exactly
    one access entry and nothing panics, whenever the rest of the chain
    returns or panics with a value on which the test of [GinRecovery] runs
    to its end; the entry carries as cost the time the chain took, and
    when the value is no broken connection it shows the status the context
    has after [c.AbortWithStatus(500)].  When the chain panics with a nil
    [*net.OpError], or with a [*net.OpError] on which the test panics,
    [GinRecovery] panics, [GinLogger] writes no entry and the panic goes on
    to its caller. *)
Theorem GinLogger_before_GinRecovery (g : GinReads) (x : Extern) (stack : bool)
    (took : Duration) (Next : HandlerFunc) (s : Serving) :
  let chain := as_Handler took (logger.GinRecovery x stack Next) in
  let state_left w1 c1 :=
    {| sv_world := w1; sv_c := c1; sv_clock := sv_clock s + took;
       sv_access := sv_access s |} in
  match Next (sv_world s, sv_c s) with
  | (Panic (PanicError NilOpError), (w1, c1)) =>
      GinLogger g chain s = (Panic nil_dereference, state_left w1 c1)
  | (Panic (PanicFaultyOpError _ _ _ _ raised), (w1, c1)) =>
      GinLogger g chain s = (Panic raised, state_left w1 c1)
  | (r, (w1, c1)) =>
      exists s1,
        chain s = (Val tt, s1)
        /\ GinLogger g chain s = (Val tt, logged (access_entry g s s1) s1)
        /\ sv_access s1 = sv_access s
        /\ sv_clock s1 - sv_clock s = took
        /\ (forall v, r = Panic v -> logger.brokenPipe x v = false ->
              sv_c s1 = with_calls c1 [c_AbortWithStatus 500])
  end.
Proof.
  cbv zeta.
  pose proof (GinRecovery_spec x stack Next (sv_world s, sv_c s)) as H.
  assert (Hret : forall w' c',
            logger.GinRecovery x stack Next (sv_world s, sv_c s) = (Val tt, (w', c')) ->
            exists s1,
              as_Handler took (logger.GinRecovery x stack Next) s = (Val tt, s1)
              /\ GinLogger g (as_Handler took (logger.GinRecovery x stack Next)) s
                 = (Val tt, logged (access_entry g s s1) s1)
              /\ sv_access s1 = sv_access s
              /\ sv_clock s1 - sv_clock s = took
              /\ sv_c s1 = c').
  { intros w' c' Hr.
    assert (Ha : as_Handler took (logger.GinRecovery x stack Next) s
                 = (Val tt, {| sv_world := w'; sv_c := c';
                               sv_clock := sv_clock s + took;
                               sv_access := sv_access s |})).
    { unfold as_Handler. rewrite Hr. reflexivity. }
    eexists. split; [exact Ha|]. split.
    - unfold GinLogger, bind, gets. rewrite Ha. reflexivity.
    - cbn. repeat split. lia. }
  assert (Hpanic : forall v w' c',
            logger.GinRecovery x stack Next (sv_world s, sv_c s) = (Panic v, (w', c')) ->
            GinLogger g (as_Handler took (logger.GinRecovery x stack Next)) s
            = (Panic v, {| sv_world := w'; sv_c := c';
                           sv_clock := sv_clock s + took;
                           sv_access := sv_access s |})).
  { intros v w' c' Hr. unfold GinLogger, bind, gets, as_Handler. rewrite Hr.
    reflexivity. }
  destruct (Next (sv_world s, sv_c s)) as [[[]|v] [w1 c1]].
  - destruct (Hret _ _ H) as (s1 & H1 & H2 & H3 & H4 & H5).
    exists s1. repeat split; try assumption. intros v Hv. discriminate Hv.
  - destruct v as [e|r|op net src addr raised|r]; [destruct e| | |];
      try (apply Hpanic; exact H);
      (destruct (logger.brokenPipe x _) eqn:Hb;
       destruct (Hret _ _ H) as (s1 & H1 & H2 & H3 & H4 & H5);
       exists s1; repeat split; try assumption;
       intros v Hv Hb'; injection Hv as <-; [congruence | exact H5]).
Qed.
(** ** The second invariant holds in every reachable state *)

Lemma Inv2_init (x : Extern) : Inv2 x init.
Proof.
  constructor; unfold once_at; cbn; try tauto; try (intros; discriminate);
    try (intros; congruence); try lia; auto.
  - intros [d H]. contradiction.
  - intros [r H]. contradiction.
  - intros [sigs H]. contradiction.
Qed.

Ltac use_inv2 HI2 :=
  destruct HI2 as [Jaddr Jlas Jsrv Jpanic Jcrash Jquiet Jlifo Jcalled Jin Jset Jlog
                   Jcon Jred Jgo Jshut Jrc Jrf Jdbo Jdbok Jrdok Jnot Junn Jkill
                   Jcode Jfatal Jcap Jreg Jspw Jfe Jkby Jdump];
  unfold once_at, config_present in *.

Ltac saturate :=
  repeat match goal with
  | H : In (EvShutdownReturn ?r) ?T,
    J : (exists r, In (EvShutdownReturn r) ?T) -> _ |- _ =>
      specialize (J (ex_intro _ r H))
  | H : In (EvShutdown ?d) ?T,
    J : (exists d, In (EvShutdown d) ?T) -> _ |- _ =>
      specialize (J (ex_intro _ d H))
  | H : In (EvNotify ?l) ?T,
    J : (exists sigs, In (EvNotify sigs) ?T) -> _ |- _ =>
      specialize (J (ex_intro _ l H))
  | H : In (EvShutdown ?d) ?T, Hc : length (filter is_Shutdown ?T) = O |- _ =>
      discriminate (count_zero_not_in is_Shutdown T (EvShutdown d) Hc H)
  | H : In ?e ?T, H' : is_fatal_entry ?e = true,
    J : forall e, In e ?T -> is_fatal_entry e = true -> _ |- _ =>
      pose proof (J e H H'); clear J
  | H : _ = ?e, H' : is_fatal_entry ?e = true |- _ =>
      is_var e; subst e; cbn in H'; try discriminate H'
  | H : EvListenAndServe _ = EvListenAndServe _ |- _ => injection H as H; subst
  | H : EvShutdown _ = EvShutdown _ |- _ => injection H as H; subst
  | H : Exited _ = Exited _ |- _ => injection H as H; subst
  | H : Crashed _ = Crashed _ |- _ => injection H as H; subst
  | H : Killed _ = Killed _ |- _ => injection H as H; subst
  | H : Dumped _ = Dumped _ |- _ => injection H as H; subst
  | H : panicking _ = panicking _ |- _ => injection H as H; subst
  end.

Ltac leaf2 :=
  solve [ assumption | discriminate | congruence | lia
        | eauto 6 with sup
        | exfalso; eauto 3
        | eexists; eexists; split; reflexivity
        | eexists; apply in_app_last
        | match goal with
          | J : (1 <= _)%nat -> ?G |- ?G => apply J; lia
          | H : filter is_deferred_call ?T = [] |- _ => rewrite H; reflexivity
          end
        | rewrite <- app_assoc; cbn; assumption
        | split; solve [ assumption | congruence | lia | eauto 6 with sup ]
        | tauto ].

Ltac crush2_1 :=
  unfold once_at, config_present, settings_ok, redis_ok, trace in *;
  cbn -[count pending all_after shutdown_after_receipt];
  try match goal with
      | H : pc ?p = _ |- context [pc ?p] =>
          rewrite H; cbn -[count pending all_after shutdown_after_receipt]
      end;
  use_stack; intros;
  break; norm; break; norm; break;
  saturate; break; rewrite ?app_nil_r in *;
  try leaf2.

Ltac crush2 :=
  crush2_1;
  try (repeat match goal with |- _ /\ _ => split end; crush2_1);
  try leaf.


Lemma deliver_Inv2 (x : Extern) (s : Signal) (p : Proc) :
  Inv x p -> Inv2 x p -> status p = Running -> Inv2 x (deliver s p).
Proof.
  intros HI HI2 Hrun. unfold deliver.
  destruct (existsb (Signal_eqb s) (notified p)) eqn:Hreg'.
  - destruct (length (quit p) <? 1)%nat eqn:Hlen; [|exact HI2].
    apply Nat.ltb_lt in Hlen.
    use_inv2 HI2. constructor; unfold once_at; try assumption.
    cbn. rewrite length_app. cbn. lia.
  - pose proof (inv_registered HI) as Hreg.
    destruct (default_disposition s) eqn:Hdisp; [ | | exact HI2];
      use_inv2 HI2;
      (constructor; unfold once_at; try assumption; cbn; intros; try congruence;
       try solve [ exfalso;
                   match goal with
                   | H : In ?e _, H' : is_fatal_entry ?e = true |- _ =>
                       pose proof (Jfe _ H H'); congruence
                   end ];
       try match goal with
           | H : Killed _ = Killed _ |- _ => injection H as <-
           | H : Dumped _ = Dumped _ |- _ => injection H as <-
           end).
    + destruct Hreg as [Hn | Hn]; [exact Hn|]. rewrite Hn in Hreg'.
      match goal with H : termination_signal _ |- _ => destruct H as [-> | ->] end;
        discriminate Hreg'.
    + destruct s; try discriminate Hdisp; auto.
    + destruct s; try discriminate Hdisp; reflexivity.
Qed.

(** The facts of both invariants at the current program point. *)
Ltac at_pc2 HI HI2 Hpc :=
  use_inv2 HI2; at_pc HI Hpc;
  repeat match goal with
  | H : shutdown_after_receipt _ |- _ => clear H
  | H : _ -> all_after _ _ _ |- _ => clear H
  | H : forall d, In (EvShutdown d) _ -> d = _ |- _ => clear H
  | H : forall s, In (EvRecv s) _ -> _ |- _ => clear H
  | H : forall sigs, In (EvNotify sigs) _ -> _ |- _ => clear H
  | H : forall t, In (EvLogFatalf t) _ -> _ |- _ => clear H
  | H : Forall termination_signal _ |- _ => clear H
  end.

Lemma listener_step_Inv2 (x : Extern) (fail : option error) (p p' : Proc) :
  Inv x p -> Inv2 x p -> status p = Running ->
  listener_step fail p = Some p' -> Inv2 x p'.
Proof.
  intros HI HI2 Hrun Hstep. unfold listener_step in Hstep.
  destruct (listener p) eqn:Hl; try discriminate Hstep.
  - (* spawned *)
    destruct (srv p) as [s|] eqn:Hs.
    + assert (exists l, p' = set_listener l (say (EvListenAndServe (Addr s)) p))
        as [l ->].
      { destruct (inShutdown s); [|destruct fail]; inversion Hstep; eexists;
          reflexivity. }
      clear Hstep. use_inv2 HI2. unfold trace in *.
      constructor; crush2.
    + exfalso. apply (i2_srv HI2); [congruence | exact Hs].
  - (* serving *)
    destruct (srv p) as [s|] eqn:Hs.
    + assert (exists l, p' = set_listener l p) as [l ->].
      { destruct (inShutdown s); [|destruct fail]; inversion Hstep; eexists;
          reflexivity. }
      clear Hstep. use_inv2 HI2. unfold trace in *.
      constructor; crush2.
    + exfalso. apply (i2_srv HI2); [congruence | exact Hs].
  - (* returned err *)
    destruct (is_ErrServerClosed err) eqn:Herr; cbn in Hstep;
      inversion Hstep; subst p'; clear Hstep;
      use_inv2 HI2; unfold trace in *;
      constructor; crush2.
Qed.

Lemma logger_not_ok (x : Extern) (cfg : settings.LogConfig) (e : error) :
  settings.LogConfig_ (settings_Conf x) = Some cfg ->
  UnmarshalText x (settings.Level cfg) = Failed e -> ~ logger_ok x.
Proof.
  intros Hcfg Hu H. unfold logger_ok, returns in H.
  rewrite Hcfg, (logger_Init_unparsed _ _ _ Hu) in H. discriminate H.
Qed.

Lemma mysql_not_ok (x : Extern) (cfg : settings.MySQLConfig) (e : error) :
  settings.MySQLConfig_ (settings_Conf x) = Some cfg ->
  sqlx_Connect x "mysql" (dsn_of cfg) = Some e -> ~ mysql_ok x.
Proof.
  intros Hcfg Hc H. unfold mysql_ok, returns in H.
  rewrite Hcfg, (mysql_Init_refused _ _ _ Hc) in H. discriminate H.
Qed.

Lemma main_step_Inv2 (x : Extern) (p p' : Proc) :
  Inv x p -> Inv2 x p -> status p = Running -> main_step x p = Some p' ->
  Inv2 x p'.
Proof.
  intros HI HI2 Hrun Hstep. unfold main_step in Hstep.
  destruct (pc p) eqn:Hpc.
  - (* settings.Init() *)
    destruct (settings_Init x) as [e|] eqn:Hsi; cbn in Hstep;
      inversion Hstep; subst p'; clear Hstep;
      at_pc2 HI HI2 Hpc; constructor; crush2.
  - (* logger.Init *)
    unfold call in Hstep.
    destruct (settings.LogConfig_ (settings_Conf x)) as [cfg|] eqn:Hcfg.
    + destruct (UnmarshalText x (settings.Level cfg)) as [lvl|e] eqn:Hu.
      * rewrite (logger_Init_parsed _ _ _ Hu) in Hstep. cbn in Hstep.
        inversion Hstep; subst p'; clear Hstep.
        at_pc2 HI HI2 Hpc; constructor; crush2.
      * pose proof (logger_not_ok Hcfg Hu) as Hnl.
        rewrite (logger_Init_unparsed _ _ _ Hu) in Hstep. cbn in Hstep.
        inversion Hstep; subst p'; clear Hstep.
        at_pc2 HI HI2 Hpc; constructor; crush2.
    + assert (Hnl : ~ logger_ok x).
      { unfold logger_ok, returns. rewrite Hcfg. discriminate. }
      rewrite logger_Init_nil in Hstep. cbn in Hstep.
      inversion Hstep; subst p'; clear Hstep.
      at_pc2 HI HI2 Hpc; constructor; crush2.
  - (* defer zap.L().Sync() *)
    inversion Hstep; subst p'; clear Hstep.
    at_pc2 HI HI2 Hpc; constructor; crush2.
  - (* zap.L().Debug *)
    cbn in Hstep. inversion Hstep; subst p'; clear Hstep.
    at_pc2 HI HI2 Hpc; constructor; crush2.
  - (* mysql.Init *)
    unfold call in Hstep.
    destruct (settings.MySQLConfig_ (settings_Conf x)) as [cfg|] eqn:Hcfg.
    + destruct (sqlx_Connect x "mysql" (dsn_of cfg)) as [e|] eqn:Hc.
      * pose proof (mysql_not_ok Hcfg Hc) as Hnm.
        rewrite (mysql_Init_refused _ _ _ Hc) in Hstep. cbn in Hstep.
        inversion Hstep; subst p'; clear Hstep.
        at_pc2 HI HI2 Hpc; constructor; crush2.
      * assert (Hmok : mysql_ok x).
        { unfold mysql_ok, returns. rewrite Hcfg, (mysql_Init_connected _ _ _ Hc).
          reflexivity. }
        rewrite (mysql_Init_connected _ _ _ Hc) in Hstep. cbn in Hstep.
        inversion Hstep; subst p'; clear Hstep.
        at_pc2 HI HI2 Hpc; constructor; crush2.
    + assert (Hnm : ~ mysql_ok x).
      { unfold mysql_ok, returns. rewrite Hcfg. discriminate. }
      rewrite mysql_Init_nil in Hstep. cbn in Hstep.
      inversion Hstep; subst p'; clear Hstep.
      at_pc2 HI HI2 Hpc; constructor; crush2.
  - (* defer mysql.Close() *)
    inversion Hstep; subst p'; clear Hstep.
    at_pc2 HI HI2 Hpc; constructor; crush2.
  - (* redis.Init() *)
    destruct (redis_Init x) as [e|] eqn:Hri; cbn in Hstep;
      inversion Hstep; subst p'; clear Hstep;
      at_pc2 HI HI2 Hpc; constructor; crush2.
  - (* defer redis.Close() *)
    inversion Hstep; subst p'; clear Hstep.
    at_pc2 HI HI2 Hpc; constructor; crush2.
  - (* routes.Setup() *)
    inversion Hstep; subst p'; clear Hstep.
    at_pc2 HI HI2 Hpc; constructor; crush2.
  - (* &http.Server{...} *)
    inversion Hstep; subst p'; clear Hstep.
    at_pc2 HI HI2 Hpc; constructor; crush2.
  - (* go func() *)
    inversion Hstep; subst p'; clear Hstep.
    at_pc2 HI HI2 Hpc; constructor; crush2.
  - (* quit := make(chan os.Signal, 1) *)
    inversion Hstep; subst p'; clear Hstep.
    at_pc2 HI HI2 Hpc; constructor; crush2.
  - (* signal.Notify *)
    inversion Hstep; subst p'; clear Hstep.
    at_pc2 HI HI2 Hpc; constructor; crush2.
  - (* <-quit *)
    destruct (quit p) as [|s rest] eqn:Hq'; [discriminate Hstep|].
    inversion Hstep; subst p'; clear Hstep.
    pose proof (i2_cap HI2) as Hcap. rewrite Hq' in Hcap. cbn in Hcap.
    at_pc2 HI HI2 Hpc; constructor; crush2.
  - (* zap.L().Info *)
    cbn in Hstep. inversion Hstep; subst p'; clear Hstep.
    at_pc2 HI HI2 Hpc; constructor; crush2.
  - (* context.WithTimeout *)
    inversion Hstep; subst p'; clear Hstep.
    at_pc2 HI HI2 Hpc; constructor; crush2.
  - (* defer cancel() *)
    inversion Hstep; subst p'; clear Hstep.
    at_pc2 HI HI2 Hpc; constructor; crush2.
  - (* srv.Shutdown(ctx) is called *)
    destruct (srv p) as [s|] eqn:Hs;
      inversion Hstep; subst p'; clear Hstep;
      at_pc2 HI HI2 Hpc; constructor; crush2.
  - (* srv.Shutdown(ctx) returns *)
    cbn in Hstep.
    destruct (srv_Shutdown x ctx) as [e|] eqn:Hsd;
      inversion Hstep; subst p'; clear Hstep;
      at_pc2 HI HI2 Hpc; constructor; crush2.
  - (* zap.L().Fatal *)
    inversion Hstep; subst p'; clear Hstep.
    at_pc2 HI HI2 Hpc; constructor; crush2.
  - (* fmt.Printf; return *)
    inversion Hstep; subst p'; clear Hstep.
    at_pc2 HI HI2 Hpc; constructor; crush2.
  - (* returning *)
    destruct (defers p) as [|d ds] eqn:Hds.
    + inversion Hstep; subst p'; clear Hstep.
      at_pc2 HI HI2 Hpc; constructor; crush2.
    + unfold call in Hstep.
      destruct d; cbn in Hstep;
        [ | destruct (db (world p)) as [h|] eqn:Hdb'; cbn in Hstep | | ];
        inversion Hstep; subst p'; clear Hstep;
        at_pc2 HI HI2 Hpc; constructor; crush2.
  - (* panicking *)
    destruct (defers p) as [|d ds] eqn:Hds.
    + inversion Hstep; subst p'; clear Hstep.
      at_pc2 HI HI2 Hpc; constructor; crush2.
    + unfold call in Hstep.
      destruct d; cbn in Hstep;
        [ | destruct (db (world p)) as [h|] eqn:Hdb'; cbn in Hstep | | ];
        inversion Hstep; subst p'; clear Hstep;
        at_pc2 HI HI2 Hpc; constructor; crush2.
Qed.

Lemma step_Inv2 (x : Extern) (c : Choice) (p p' : Proc) :
  Inv x p -> Inv2 x p -> step x c p = Some p' -> Inv2 x p'.
Proof.
  intros HI HI2 Hstep. unfold step in Hstep.
  destruct (status p) eqn:Hrun; try discriminate Hstep.
  destruct c as [|fail|s].
  - exact (main_step_Inv2 HI HI2 Hrun Hstep).
  - exact (listener_step_Inv2 fail HI HI2 Hrun Hstep).
  - inversion Hstep; subst p'. exact (deliver_Inv2 s HI HI2 Hrun).
Qed.

Lemma run_Inv2 (x : Extern) (cs : list Choice) :
  forall p p', Inv x p -> Inv2 x p -> run x cs p = Some p' -> Inv2 x p'.
Proof.
  induction cs as [|c cs IH]; intros p p' HI HI2 Hrun; cbn in Hrun.
  - inversion Hrun; subst p'. exact HI2.
  - destruct (step x c p) as [p1|] eqn:Hstep; [|discriminate Hrun].
    exact (IH p1 p' (step_Inv c HI Hstep) (step_Inv2 c HI HI2 Hstep) Hrun).
Qed.

Lemma reachable_Inv2 (x : Extern) (p : Proc) : reachable x p -> Inv2 x p.
Proof.
  intros [cs Hrun]. exact (run_Inv2 cs (Inv_init x) (Inv2_init x) Hrun).
Qed.

(** ** The supervisor: more of what every run has *)

Lemma count_pos_in (f : Event -> bool) (t : list Event) (e : Event) :
  In e t -> f e = true -> (1 <= count f t)%nat.
Proof.
  intros Hin Hf. destruct (count f t) eqn:Hc; [|lia].
  rewrite (count_zero_not_in f t e Hc Hin) in Hf. discriminate Hf.
Qed.

(** X8: [main] panics only on a configuration that lacks the section of the
    logger or that of the database.  When [settings.Conf] holds both, no run
    of the process reaches a panic: [srv] is never nil when it is used, and
    the deferred [mysql.Close] never finds a nil handle.  (The calls into
    the packages outside these sources are taken not to panic.) *)
Theorem main_panics_only_without_config (x : Extern) (p : Proc) :
  reachable x p -> config_present x ->
  (forall v, pc p <> panicking v) /\ (forall v, status p <> Crashed v).
Proof.
  intros Hp Hcfg. pose proof (reachable_Inv2 Hp) as HI2. split; intros v H.
  - exact (i2_panic HI2 H Hcfg).
  - exact (i2_crash HI2 H Hcfg).
Qed.

(** X9: a missing section is not reported as an error.  When
    [settings.Init] succeeds and [settings.Conf.LogConfig] is nil, or
    [logger.Init] succeeds and [settings.Conf.MySQLConfig] is nil, [main]
    alone runs into a nil dereference and the process crashes: nothing is
    printed and no store is closed; the deferred [zap.L().Sync()] runs
    when the logger had been installed. *)
Theorem missing_config_crashes (x : Extern) :
  settings_ok x ->
  settings.LogConfig_ (settings_Conf x) = None
  \/ (logger_ok x /\ settings.MySQLConfig_ (settings_Conf x) = None) ->
  exists n p,
    run x (repeat RunMain n) init = Some p
    /\ status p = Crashed nil_dereference
    /\ (forall t, ~ In (EvPrintf t) (trace p))
    /\ count is_teardown (trace p) = O
    /\ (logger_ok x -> In EvSync (trace p)).
Proof.
  intros Hs [Hlc | [Hl Hmc]]; unfold settings_ok in Hs.
  - exists 3%nat. cbn [repeat].
    run_step. rewrite Hs. state_norm.
    run_step. rewrite Hlc, logger_Init_nil. state_norm.
    run_step.
    cbn [run]. eexists. split; [reflexivity|]. unfold trace. cbn.
    split; [reflexivity|]. split; [|split; [reflexivity|]].
    + intros t [H|[]]. discriminate H.
    + unfold logger_ok, returns. rewrite Hlc, logger_Init_nil. discriminate.
  - destruct (logger_ok_inv Hl) as (lc & lvl & Hlc & Hu).
    exists 7%nat. cbn [repeat].
    run_step. rewrite Hs. state_norm.
    run_step. rewrite Hlc, (logger_Init_parsed _ _ _ Hu). state_norm.
    do 2 run_step.
    run_step. rewrite Hmc, mysql_Init_nil. state_norm.
    do 2 run_step.
    cbn [run]. eexists. split; [reflexivity|]. unfold trace. cbn.
    split; [reflexivity|]. split; [|split; [reflexivity|]].
    + intros t H. repeat (destruct H as [H|H]; [discriminate H|]). exact H.
    + intros _. tauto.
Qed.

(** X10: the deferred calls run in the reverse of the order of their
    [defer] statements.  When the process ends with [main] returned after
    the server was started, exactly four deferred calls have run, each once:
    [cancel], [redis.Close], [mysql.Close], [zap.L().Sync], in this order. *)
Theorem deferred_calls_run_in_reverse (x : Extern) (p : Proc) :
  reachable x p -> status p = Exited 0 -> In EvGo (trace p) ->
  filter is_deferred_call (trace p) = [EvCancel; EvRedisClose; EvDBClose; EvSync].
Proof.
  intros Hp Hex Hgo.
  pose proof (reachable_Inv Hp) as HI. pose proof (reachable_Inv2 Hp) as HI2.
  destruct (inv_exit0 HI Hex) as [Hds Hpc].
  assert (Hret : In (EvShutdownReturn None) (trace p)).
  { apply (inv_unwinding HI); [rewrite Hpc; reflexivity | exact Hgo]. }
  pose proof (i2_lifo HI2 (i2_called HI2 (ex_intro _ None Hret))) as H.
  rewrite Hds in H. cbn in H. rewrite app_nil_r in H. exact H.
Qed.

(** X11: a database that was opened is closed when [main] returns, also
    when [redis.Init] fails after it.  When configuration loading,
    [logger.Init] and [mysql.Init] succeed, a process that ends with [main]
    returned has called [db.Close()] exactly once; and when [redis.Init]
    has failed it has not called [redis.Close]. *)
Theorem opened_db_is_closed_at_exit (x : Extern) (p : Proc) :
  reachable x p -> status p = Exited 0 ->
  settings_ok x -> logger_ok x -> mysql_ok x ->
  count is_DBClose (trace p) = 1%nat
  /\ (~ redis_ok x -> count is_RedisClose (trace p) = O).
Proof.
  intros Hp Hex Hs Hl Hm.
  pose proof (reachable_Inv Hp) as HI. pose proof (reachable_Inv2 Hp) as HI2.
  destruct (inv_exit0 HI Hex) as [Hds Hpc].
  assert (Hri : In EvRedisInit (trace p)).
  { apply (i2_redis_failed HI2); [rewrite Hpc; reflexivity | assumption ..]. }
  pose proof (i2_db_owed HI2 Hri) as Hdb.
  pose proof (i2_rd_ok HI2) as Hrd.
  rewrite Hds in Hdb, Hrd. cbn in Hdb, Hrd. split; [lia|].
  intros Hr.
  destruct (count is_RedisClose (trace p)) eqn:Hc; [reflexivity|].
  exfalso. apply Hr, Hrd. lia.
Qed.

(** X12: a store is closed only if it was opened.  In every state of every
    run, [db.Close()] has been reached only if [mysql.Init] returned nil,
    and [redis.Close] has been called only if [redis.Init] returned nil;
    neither is called before [main] unwinds. *)
Theorem teardown_only_after_init (x : Extern) (p : Proc) :
  reachable x p ->
  (In EvDBClose (trace p) -> mysql_ok x)
  /\ (In EvRedisClose (trace p) -> redis_ok x)
  /\ (In EvDBClose (trace p) \/ In EvRedisClose (trace p) ->
      pc p = returning \/ exists v, pc p = panicking v).
Proof.
  intros Hp.
  pose proof (reachable_Inv Hp) as HI. pose proof (reachable_Inv2 Hp) as HI2.
  split; [|split].
  - intros H. apply (i2_db_ok HI2).
    pose proof (@count_pos_in is_DBClose _ _ H eq_refl). lia.
  - intros H. apply (i2_rd_ok HI2).
    pose proof (@count_pos_in is_RedisClose _ _ H eq_refl). lia.
  - intros H.
    destruct (within 0 20 (idx (pc p))) eqn:Hw.
    + exfalso. pose proof (i2_quiet HI2 Hw) as Hq.
      assert (Hin : forall e, In e (trace p) -> is_deferred_call e = true -> False).
      { intros e He Hf.
        assert (Hin' : In e (filter is_deferred_call (trace p)))
          by (apply filter_In; split; assumption).
        rewrite Hq in Hin'. exact Hin'. }
      destruct H as [H|H]; exact (Hin _ H eq_refl).
    + destruct (pc p); try discriminate Hw; [left; reflexivity | right; eauto].
Qed.

Lemma append_empty_r (s : string) : (s ++ EmptyString)%string = s.
Proof. induction s as [|c s IH]; cbn; [reflexivity | rewrite IH; reflexivity]. Qed.

Lemma listen_addr_spec (x : Extern) :
  listen_addr x = (":" ++ itoa (viper_app_port x))%string.
Proof. unfold listen_addr. cbn. rewrite append_empty_r. reflexivity. Qed.

(** X13: the server listens on the configured port, on every interface.
    Every call of [srv.ListenAndServe] is on the address made of a colon
    and the decimal numeral of [viper.GetInt("app.port")]. *)
Theorem listener_binds_configured_port (x : Extern) (p : Proc) (a : string) :
  reachable x p -> In (EvListenAndServe a) (trace p) ->
  a = (":" ++ itoa (viper_app_port x))%string.
Proof.
  intros Hp H. rewrite (i2_las (reachable_Inv2 Hp) a H). apply listen_addr_spec.
Qed.



(** X16: nothing is retried.  In every run the configuration is loaded at
    most once, the logger installed at most once, the database dialled at
    most once, [redis.Init] called at most once, the goroutine of the
    listener started at most once and [srv.Shutdown] called at most once. *)
Theorem nothing_is_retried (x : Extern) (p : Proc) :
  reachable x p ->
  (count is_SettingsInit (trace p) <= 1)%nat
  /\ (count is_ReplaceGlobals (trace p) <= 1)%nat
  /\ (count is_SqlxConnect (trace p) <= 1)%nat
  /\ (count is_RedisInit (trace p) <= 1)%nat
  /\ (count is_Go (trace p) <= 1)%nat
  /\ (count is_Shutdown (trace p) <= 1)%nat.
Proof.
  intros Hp. pose proof (reachable_Inv2 Hp) as HI2.
  repeat split.
  - exact (proj1 (i2_settings HI2)).
  - exact (proj1 (i2_logger HI2)).
  - exact (proj1 (i2_connect HI2)).
  - exact (proj1 (i2_redis HI2)).
  - exact (proj1 (i2_go HI2)).
  - exact (proj1 (i2_shutdown HI2)).
Qed.

(** ** The third invariant holds in every reachable state *)

Lemma Inv3_init (x : Extern) : Inv3 x init.
Proof.
  constructor.
  - exists 4%nat. reflexivity.
  - cbn. discriminate.
  - cbn. discriminate.
Qed.

Ltac use_inv3 HI3 :=
  destruct HI3 as [Ksuf Ksync Kcr]; unfold deferred_log in *.

Ltac leaf3 :=
  solve [ assumption | discriminate | congruence | tauto
        | exists 4%nat; reflexivity | exists 3%nat; reflexivity
        | exists 2%nat; reflexivity | exists 1%nat; reflexivity
        | exists 0%nat; reflexivity
        | eexists; rewrite <- ?app_assoc; cbn; eassumption
        | rewrite <- ?app_assoc; cbn; assumption
        | cbn; auto 6
        | exfalso; eauto 3 ].

Ltac crush3 :=
  unfold deferred_log, settings_ok, redis_ok, trace in *;
  cbn -[all_deferred skipn];
  try match goal with
      | H : pc ?p = _ |- context [pc ?p] => rewrite H; cbn -[all_deferred skipn]
      end;
  use_stack; intros;
  repeat match goal with
  | H : exists _, _ |- _ => destruct H
  | H : _ /\ _ |- _ => destruct H
  | H : true = true -> _ |- _ => specialize (H eq_refl)
  | H : In ?d (?d :: _) -> _ |- _ => specialize (H (or_introl eq_refl))
  | H : ?A -> _, H' : ?A |- _ =>
      match type of A with Prop => specialize (H H') end
  | H : Crashed _ = Crashed _ |- _ => injection H as H; subst
  end;
  rewrite ?filter_app; cbn -[all_deferred skipn];
  repeat match goal with
  | H : filter is_deferred_call ?T = [], H' : context [filter is_deferred_call ?T]
    |- _ => lazymatch H' with H => fail | _ => rewrite H in H' end
  | H : filter is_deferred_call ?T = [] |- context [filter is_deferred_call ?T] =>
      rewrite H
  end;
  cbn [map app ev_of] in *;
  rewrite ?app_nil_r in *;
  try leaf3.

Lemma main_step_Inv3 (x : Extern) (p p' : Proc) :
  Inv x p -> Inv2 x p -> Inv3 x p -> status p = Running ->
  main_step x p = Some p' -> Inv3 x p'.
Proof.
  intros HI HI2 HI3 Hrun Hstep. unfold main_step in Hstep.
  destruct (pc p) eqn:Hpc.
  - (* settings.Init() *)
    destruct (settings_Init x) as [e|] eqn:Hsi; cbn in Hstep;
      inversion Hstep; subst p'; clear Hstep;
      use_inv3 HI3; at_pc2 HI HI2 Hpc; constructor; crush3.
  - (* logger.Init *)
    unfold call in Hstep.
    destruct (settings.LogConfig_ (settings_Conf x)) as [cfg|] eqn:Hcfg.
    + destruct (UnmarshalText x (settings.Level cfg)) as [lvl|e] eqn:Hu.
      * rewrite (logger_Init_parsed _ _ _ Hu) in Hstep. cbn in Hstep.
        inversion Hstep; subst p'; clear Hstep.
        use_inv3 HI3; at_pc2 HI HI2 Hpc; constructor; crush3.
      * pose proof (logger_not_ok Hcfg Hu) as Hnl.
        rewrite (logger_Init_unparsed _ _ _ Hu) in Hstep. cbn in Hstep.
        inversion Hstep; subst p'; clear Hstep.
        use_inv3 HI3; at_pc2 HI HI2 Hpc; constructor; crush3.
    + assert (Hnl : ~ logger_ok x).
      { unfold logger_ok, returns. rewrite Hcfg. discriminate. }
      rewrite logger_Init_nil in Hstep. cbn in Hstep.
      inversion Hstep; subst p'; clear Hstep.
      use_inv3 HI3; at_pc2 HI HI2 Hpc; constructor; crush3.
  - (* defer zap.L().Sync() *)
    inversion Hstep; subst p'; clear Hstep.
    use_inv3 HI3; at_pc2 HI HI2 Hpc; constructor; crush3.
  - (* zap.L().Debug *)
    cbn in Hstep. inversion Hstep; subst p'; clear Hstep.
    use_inv3 HI3; at_pc2 HI HI2 Hpc; constructor; crush3.
  - (* mysql.Init *)
    unfold call in Hstep.
    destruct (settings.MySQLConfig_ (settings_Conf x)) as [cfg|] eqn:Hcfg.
    + destruct (sqlx_Connect x "mysql" (dsn_of cfg)) as [e|] eqn:Hc.
      * rewrite (mysql_Init_refused _ _ _ Hc) in Hstep. cbn in Hstep.
        inversion Hstep; subst p'; clear Hstep.
        use_inv3 HI3; at_pc2 HI HI2 Hpc; constructor; crush3.
      * rewrite (mysql_Init_connected _ _ _ Hc) in Hstep. cbn in Hstep.
        inversion Hstep; subst p'; clear Hstep.
        use_inv3 HI3; at_pc2 HI HI2 Hpc; constructor; crush3.
    + rewrite mysql_Init_nil in Hstep. cbn in Hstep.
      inversion Hstep; subst p'; clear Hstep.
      use_inv3 HI3; at_pc2 HI HI2 Hpc; constructor; crush3.
  - (* defer mysql.Close() *)
    inversion Hstep; subst p'; clear Hstep.
    use_inv3 HI3; at_pc2 HI HI2 Hpc; constructor; crush3.
  - (* redis.Init() *)
    destruct (redis_Init x) as [e|] eqn:Hri; cbn in Hstep;
      inversion Hstep; subst p'; clear Hstep;
      use_inv3 HI3; at_pc2 HI HI2 Hpc; constructor; crush3.
  - (* defer redis.Close() *)
    inversion Hstep; subst p'; clear Hstep.
    use_inv3 HI3; at_pc2 HI HI2 Hpc; constructor; crush3.
  - (* routes.Setup() *)
    inversion Hstep; subst p'; clear Hstep.
    use_inv3 HI3; at_pc2 HI HI2 Hpc; constructor; crush3.
  - (* &http.Server{...} *)
    inversion Hstep; subst p'; clear Hstep.
    use_inv3 HI3; at_pc2 HI HI2 Hpc; constructor; crush3.
  - (* go func() *)
    inversion Hstep; subst p'; clear Hstep.
    use_inv3 HI3; at_pc2 HI HI2 Hpc; constructor; crush3.
  - (* quit := make(chan os.Signal, 1) *)
    inversion Hstep; subst p'; clear Hstep.
    use_inv3 HI3; at_pc2 HI HI2 Hpc; constructor; crush3.
  - (* signal.Notify *)
    inversion Hstep; subst p'; clear Hstep.
    use_inv3 HI3; at_pc2 HI HI2 Hpc; constructor; crush3.
  - (* <-quit *)
    destruct (quit p) as [|s rest] eqn:Hq'; [discriminate Hstep|].
    inversion Hstep; subst p'; clear Hstep.
    use_inv3 HI3; at_pc2 HI HI2 Hpc; constructor; crush3.
  - (* zap.L().Info *)
    cbn in Hstep. inversion Hstep; subst p'; clear Hstep.
    use_inv3 HI3; at_pc2 HI HI2 Hpc; constructor; crush3.
  - (* context.WithTimeout *)
    inversion Hstep; subst p'; clear Hstep.
    use_inv3 HI3; at_pc2 HI HI2 Hpc; constructor; crush3.
  - (* defer cancel() *)
    inversion Hstep; subst p'; clear Hstep.
    use_inv3 HI3; at_pc2 HI HI2 Hpc; constructor; crush3.
  - (* srv.Shutdown(ctx) is called *)
    destruct (srv p) as [s|] eqn:Hs;
      inversion Hstep; subst p'; clear Hstep;
      use_inv3 HI3; at_pc2 HI HI2 Hpc; constructor; crush3.
  - (* srv.Shutdown(ctx) returns *)
    cbn in Hstep.
    destruct (srv_Shutdown x ctx) as [e|] eqn:Hsd;
      inversion Hstep; subst p'; clear Hstep;
      use_inv3 HI3; at_pc2 HI HI2 Hpc; constructor; crush3.
  - (* zap.L().Fatal *)
    inversion Hstep; subst p'; clear Hstep.
    use_inv3 HI3; at_pc2 HI HI2 Hpc; constructor; crush3.
  - (* fmt.Printf; return *)
    inversion Hstep; subst p'; clear Hstep.
    use_inv3 HI3; at_pc2 HI HI2 Hpc; constructor; crush3.
  - (* returning *)
    destruct (defers p) as [|d ds] eqn:Hds.
    + inversion Hstep; subst p'; clear Hstep.
      use_inv3 HI3; at_pc2 HI HI2 Hpc; constructor; crush3.
    + unfold call in Hstep.
      destruct d; cbn in Hstep;
        [ | destruct (db (world p)) as [h|] eqn:Hdb'; cbn in Hstep | | ];
        inversion Hstep; subst p'; clear Hstep;
        use_inv3 HI3; at_pc2 HI HI2 Hpc; constructor; crush3.
  - (* panicking *)
    destruct (defers p) as [|d ds] eqn:Hds.
    + inversion Hstep; subst p'; clear Hstep.
      use_inv3 HI3; at_pc2 HI HI2 Hpc; constructor; crush3.
    + unfold call in Hstep.
      destruct d; cbn in Hstep;
        [ | destruct (db (world p)) as [h|] eqn:Hdb'; cbn in Hstep | | ];
        inversion Hstep; subst p'; clear Hstep;
        use_inv3 HI3; at_pc2 HI HI2 Hpc; constructor; crush3.
Qed.

Lemma listener_step_Inv3 (x : Extern) (fail : option error) (p p' : Proc) :
  Inv2 x p -> Inv3 x p -> status p = Running ->
  listener_step fail p = Some p' -> Inv3 x p'.
Proof.
  intros HI2 HI3 Hrun Hstep. unfold listener_step in Hstep.
  destruct (listener p) eqn:Hl; try discriminate Hstep.
  - (* spawned *)
    destruct (srv p) as [s|] eqn:Hs.
    + assert (exists l, p' = set_listener l (say (EvListenAndServe (Addr s)) p))
        as [l ->].
      { destruct (inShutdown s); [|destruct fail]; inversion Hstep; eexists;
          reflexivity. }
      clear Hstep. use_inv3 HI3. constructor; crush3.
    + exfalso. apply (i2_srv HI2); [congruence | exact Hs].
  - (* serving *)
    destruct (srv p) as [s|] eqn:Hs.
    + assert (exists l, p' = set_listener l p) as [l ->].
      { destruct (inShutdown s); [|destruct fail]; inversion Hstep; eexists;
          reflexivity. }
      clear Hstep. use_inv3 HI3. constructor; crush3.
    + exfalso. apply (i2_srv HI2); [congruence | exact Hs].
  - (* returned err *)
    destruct (is_ErrServerClosed err) eqn:Herr; cbn in Hstep;
      inversion Hstep; subst p'; clear Hstep;
      use_inv3 HI3; constructor; crush3.
Qed.

Lemma deliver_Inv3 (x : Extern) (s : Signal) (p : Proc) :
  Inv3 x p -> status p = Running -> Inv3 x (deliver s p).
Proof.
  intros HI3 Hrun. unfold deliver.
  destruct (existsb (Signal_eqb s) (notified p)).
  - destruct (length (quit p) <? 1)%nat; [|exact HI3].
    use_inv3 HI3. constructor; crush3.
  - destruct (default_disposition s); [ | | exact HI3];
      use_inv3 HI3; constructor; crush3.
Qed.

Lemma step_Inv3 (x : Extern) (c : Choice) (p p' : Proc) :
  Inv x p -> Inv2 x p -> Inv3 x p -> step x c p = Some p' -> Inv3 x p'.
Proof.
  intros HI HI2 HI3 Hstep. unfold step in Hstep.
  destruct (status p) eqn:Hrun; try discriminate Hstep.
  destruct c as [|fail|s].
  - exact (main_step_Inv3 HI HI2 HI3 Hrun Hstep).
  - exact (listener_step_Inv3 fail HI2 HI3 Hrun Hstep).
  - inversion Hstep; subst p'. exact (deliver_Inv3 s HI3 Hrun).
Qed.

Lemma run_Inv3 (x : Extern) (cs : list Choice) :
  forall p p', Inv x p -> Inv2 x p -> Inv3 x p -> run x cs p = Some p' ->
    Inv3 x p'.
Proof.
  induction cs as [|c cs IH]; intros p p' HI HI2 HI3 Hrun; cbn in Hrun.
  - inversion Hrun; subst p'. exact HI3.
  - destruct (step x c p) as [p1|] eqn:Hstep; [|discriminate Hrun].
    exact (IH p1 p' (step_Inv c HI Hstep) (step_Inv2 c HI HI2 Hstep)
             (step_Inv3 c HI HI2 HI3 Hstep) Hrun).
Qed.

Lemma reachable_Inv3 (x : Extern) (p : Proc) : reachable x p -> Inv3 x p.
Proof.
  intros [cs Hrun].
  exact (run_Inv3 cs (Inv_init x) (Inv2_init x) (Inv3_init x) Hrun).
Qed.

(** X18: on every path the deferred calls run in last-in-first-out order,
    and the logger is flushed.  When the process ends with [main] returned
    or with a panic of [main], the deferred calls that have run are the
    last ones of the list [cancel], [redis.Close], [mysql.Close],
    [zap.L().Sync], in this order and each at most once; and when
    configuration loading and [logger.Init] had succeeded, [zap.L().Sync]
    is among them. *)
Theorem deferred_calls_on_every_path (x : Extern) (p : Proc) :
  reachable x p ->
  status p = Exited 0 \/ (exists v, status p = Crashed v) ->
  (exists k, filter is_deferred_call (trace p)
             = skipn k [EvCancel; EvRedisClose; EvDBClose; EvSync])
  /\ (settings_ok x -> logger_ok x -> In EvSync (trace p)).
Proof.
  intros Hp Hend.
  pose proof (reachable_Inv Hp) as HI. pose proof (reachable_Inv3 Hp) as HI3.
  assert (Hds : defers p = [] /\ within 3 22 (idx (pc p)) = true).
  { destruct Hend as [Hex | [v Hcr]].
    - destruct (inv_exit0 HI Hex) as [Hds Hpc]. rewrite Hpc. split; [exact Hds | reflexivity].
    - destruct (i3_crashed HI3 Hcr) as [Hds Hpc]. rewrite Hpc. split; [exact Hds | reflexivity]. }
  destruct Hds as [Hds Hw].
  assert (Hlog : deferred_log p = filter is_deferred_call (trace p)).
  { unfold deferred_log. rewrite Hds. cbn. apply app_nil_r. }
  split.
  - destruct (i3_suffix HI3) as [k Hk]. exists k. rewrite <- Hlog. exact Hk.
  - intros Hs Hl. pose proof (i3_sync HI3 Hw Hs Hl) as H.
    rewrite Hlog in H. apply filter_In in H. exact (proj1 H).
Qed.

(** ** The further theorems at work on the example runs *)

Lemma p_redis_failed_reachable : reachable x_redis_down p_redis_failed.
Proof. exists (repeat RunMain 11). vm_compute. reflexivity. Defined.


Lemma mysql_Init_credentials_not_escaped_witness :
  mysql.Init x_ok (Some colon_in_user) world0
  = mysql.Init x_ok (Some colon_in_password) world0.
Proof.
  apply (mysql_Init_credentials_not_escaped x_ok colon_in_user colon_in_password
           world0); reflexivity.
Defined.

Lemma mysql_Close_repeated_witness :
  exists w' d,
    (mysql.Init x_ok (Some example_MySQLConfig) ;; Close_times 2) world0 = (Val tt, w')
    /\ db (snd (mysql.Init x_ok (Some example_MySQLConfig) world0)) = Some d
    /\ db w' = Some d
    /\ driverName d = "mysql"
    /\ dataSourceName d =
         "root:secret@tcp(127.0.0.1:3306)/web_app?charset=utf8mb4&parseTime=true"
    /\ out w' = [EvSqlxConnect "mysql"
                   "root:secret@tcp(127.0.0.1:3306)/web_app?charset=utf8mb4&parseTime=true";
                 EvSetMaxOpenConns 200; EvSetMaxIdleConns 50;
                 EvDBClose; EvDBClose].
Proof.
  exact (mysql_Close_repeated x_ok example_MySQLConfig world0 2 eq_refl).
Defined.

Lemma main_panics_only_without_config_witness :
  (forall v, pc p_serving <> panicking v)
  /\ (forall v, status p_serving <> Crashed v).
Proof.
  apply (main_panics_only_without_config p_serving_reachable).
  split; vm_compute; discriminate.
Defined.

Lemma missing_config_crashes_witness :
  exists n p,
    run x_no_LogConfig (repeat RunMain n) init = Some p
    /\ status p = Crashed nil_dereference
    /\ (forall t, ~ In (EvPrintf t) (trace p))
    /\ count is_teardown (trace p) = O
    /\ (logger_ok x_no_LogConfig -> In EvSync (trace p)).
Proof.
  apply (@missing_config_crashes x_no_LogConfig).
  - vm_compute. reflexivity.
  - left. reflexivity.
Defined.

Lemma deferred_calls_run_in_reverse_witness :
  filter is_deferred_call (trace p_shut_down)
  = [EvCancel; EvRedisClose; EvDBClose; EvSync].
Proof.
  apply (deferred_calls_run_in_reverse p_shut_down_reachable).
  - vm_compute. reflexivity.
  - vm_compute. tauto.
Defined.

Lemma opened_db_is_closed_at_exit_witness :
  count is_DBClose (trace p_redis_failed) = 1%nat
  /\ (~ redis_ok x_redis_down -> count is_RedisClose (trace p_redis_failed) = O).
Proof.
  apply (opened_db_is_closed_at_exit p_redis_failed_reachable);
    vm_compute; reflexivity.
Defined.

Lemma teardown_only_after_init_witness :
  mysql_ok x_ok /\ redis_ok x_ok
  /\ (pc p_shut_down = returning \/ exists v, pc p_shut_down = panicking v).
Proof.
  destruct (teardown_only_after_init p_shut_down_reachable) as [Hdb [Hrd Hpc]].
  split; [apply Hdb; vm_compute; tauto|].
  split; [apply Hrd; vm_compute; tauto|].
  apply Hpc. left. vm_compute. tauto.
Defined.

Lemma listener_binds_configured_port_witness :
  ":8081"%string = (":" ++ itoa (viper_app_port x_ok))%string.
Proof.
  apply (@listener_binds_configured_port x_ok p_serving ":8081" p_serving_reachable).
  vm_compute. tauto.
Defined.



Lemma nothing_is_retried_witness :
  (count is_SettingsInit (trace p_shut_down) <= 1)%nat
  /\ (count is_ReplaceGlobals (trace p_shut_down) <= 1)%nat
  /\ (count is_SqlxConnect (trace p_shut_down) <= 1)%nat
  /\ (count is_RedisInit (trace p_shut_down) <= 1)%nat
  /\ (count is_Go (trace p_shut_down) <= 1)%nat
  /\ (count is_Shutdown (trace p_shut_down) <= 1)%nat.
Proof. exact (nothing_is_retried p_shut_down_reachable). Defined.


Lemma deferred_calls_on_every_path_witness :
  (exists k, filter is_deferred_call (trace p_redis_failed)
             = skipn k [EvCancel; EvRedisClose; EvDBClose; EvSync])
  /\ (settings_ok x_redis_down -> logger_ok x_redis_down ->
      In EvSync (trace p_redis_failed)).
Proof.
  apply (deferred_calls_on_every_path p_redis_failed_reachable).
  left. vm_compute. reflexivity.
Defined.

